(** * Test-image generator of libepaper: pattern generation, verified

    Shallow embedding of [examples/generate_test_images.py].  The script
    builds 8-bit grayscale Pillow images ([Image.new('L', ...)]) and fills
    them either pixel by pixel ([create_gradient]) or through
    [ImageDraw] calls (all the other generators).

    - Python integers are [Z]; [//] and [%] are [Z.div] and [Z.modulo]
      (both floor towards minus infinity, as Python's do).
    - Python floats are IEEE 754 binary64 values, modelled by the
      standard library's [spec_float] at precision 53 and [emax] 1024,
      with its round-to-nearest-even operations [SFdiv] and [SFmul].
    - An exception is a value [Raise e] of the [result] type, threaded
      through an error monad.
    - An image is its size and its rows of pixels. *)

From Stdlib Require Import ZArith Lia Bool String SpecFloat QArith Qround.
From stdpp Require Import base list.

Local Open Scope Z_scope.

(** ** Exceptions and the error monad *)

Inductive exn : Set :=
| ValueError
| ZeroDivisionError
| OverflowError
| IndexError
| MemoryError
| OSError.

Inductive result (A : Type) : Type :=
| Ok (a : A)
| Raise (e : exn).
Arguments Ok {A} a.
Arguments Raise {A} e.

#[global] Instance result_ret : MRet result := fun _ a => Ok a.
#[global] Instance result_bind : MBind result := fun _ _ k r =>
  match r with
  | Ok a => k a
  | Raise e => Raise e
  end.

(** [for v in l: body] over a state that the body updates. *)
Fixpoint for_ {A S : Type} (l : list A) (body : A -> S -> result S) (s : S)
  : result S :=
  match l with
  | [] => Ok s
  | a :: l' => s' ← body a s; for_ l' body s'
  end.

(** ** Python numbers *)

Module Py.

Definition prec : Z := 53.
Definition emax : Z := 1024.

Definition float := spec_float.

(** [float(n)] for an [int]: the nearest binary64 value. *)
Definition float_of_int (n : Z) : float := binary_normalize prec emax n 0 false.

(** [a / b] on two [int]s (true division).  CPython divides the two
    operands as doubles whenever both convert exactly, which is the case
    below 2^53; the quotient is rounded to nearest even. *)
Definition truediv (a b : Z) : result float :=
  if b =? 0 then Raise ZeroDivisionError
  else Ok (SFdiv prec emax (float_of_int a) (float_of_int b)).

(** [f * n] for a float and an [int]: the [int] is converted first. *)
Definition mul_int (f : float) (n : Z) : float :=
  SFmul prec emax f (float_of_int n).

(** The literal [0.5]. *)
Definition half : float := S754_finite false (2 ^ 52) (-53).

(** [a > b] on floats; a comparison with NaN is false. *)
Definition gt (a b : float) : bool := SFltb b a.

(** [int(f)]: truncation towards zero; infinities and NaN raise. *)
Definition int (f : float) : result Z :=
  match f with
  | S754_zero _ => Ok 0
  | S754_finite s m e =>
      let a := if e <? 0 then Z.shiftr (Zpos m) (- e) else Z.shiftl (Zpos m) e in
      Ok (cond_Zopp s a)
  | S754_infinity _ => Raise OverflowError
  | S754_nan => Raise ValueError
  end.

(** [range(start, stop, step)]; a zero step raises [ValueError]. *)
Definition range3 (start stop step : Z) : result (list Z) :=
  if step =? 0 then Raise ValueError
  else
    let n := if 0 <? step then (stop - start + step - 1) / step
             else (start - stop - step - 1) / (- step) in
    Ok (map (fun i => start + Z.of_nat i * step) (seq 0 (Z.to_nat n))).

(** [a // b]; a zero divisor raises [ZeroDivisionError]. *)
Definition floordiv (a b : Z) : result Z :=
  if b =? 0 then Raise ZeroDivisionError else Ok (a / b).

(** [range(stop)]. *)
Definition range (stop : Z) : list Z :=
  map Z.of_nat (seq 0 (Z.to_nat stop)).

End Py.

(** ** Pillow images of mode ['L'] *)

Definition Box : Type := Z * Z * Z * Z.

Record Image : Type := mkImage {
  im_size : Z * Z;               (* (width, height) *)
  im_rows : list (list Z)        (* row-major, one list per line *)
}.

(** Pillow stores an integer ink in an 8-bit band saturated to [0, 255]. *)
Definition clip8 (v : Z) : Z := Z.max 0 (Z.min 255 v).

(** The widest line the imaging core stores: [INT_MAX / 4 - 1] samples. *)
Abbreviation max_width := 536870910.

(** [Image.new('L', size, color)].  A negative side raises [ValueError];
    a side that does not fit the C [int] of the imaging core raises
    [OverflowError]; a width beyond [max_width] raises [MemoryError], whatever
    the height.  The lines are then allocated: the model takes the machine to
    have the memory, so a statement that needs the canvas assumes that
    [Image.new] returned it. *)
Definition Image_new (size : Z * Z) (color : Z) : result Image :=
  let '(w, h) := size in
  if (w <? 0) || (h <? 0) then Raise ValueError
  else if (2 ^ 31 <=? w) || (2 ^ 31 <=? h) then Raise OverflowError
  else if max_width <? w then Raise MemoryError
  else Ok (mkImage (w, h)
             (replicate (Z.to_nat h) (replicate (Z.to_nat w) (clip8 color)))).

(** [img.getpixel((x, y))] for coordinates inside the image. *)
Definition getpixel (img : Image) (xy : Z * Z) : option Z :=
  let '(x, y) := xy in
  if (0 <=? x) && (0 <=? y) then
    row ← im_rows img !! Z.to_nat y; row !! Z.to_nat x
  else None.

(** Store one sample; coordinates outside the image are clipped away. *)
Definition set_px (img : Image) (x y v : Z) : Image :=
  if (0 <=? x) && (0 <=? y) then
    mkImage (im_size img)
      (alter (fun row => <[Z.to_nat x := clip8 v]> row) (Z.to_nat y) (im_rows img))
  else img.

(** [pixels[x, y] = value] on the access object returned by [img.load()]:
    a negative index counts from the far edge, an index outside the image
    raises [IndexError]. *)
Definition putpixel (img : Image) (xy : Z * Z) (value : Z) : result Image :=
  let '(w, h) := im_size img in
  let '(x, y) := xy in
  let x := if x <? 0 then w + x else x in
  let y := if y <? 0 then h + y else y in
  if (0 <=? x) && (x <? w) && (0 <=? y) && (y <? h)
  then Ok (set_px img x y value)
  else Raise IndexError.

(** The filled rectangle of [ImageDraw]: both corners are inside the
    painted area, and the area is clipped to the image.  Pillow narrows the
    corners to C [float] and then to C [int] before it paints; the model
    paints the corners it is given, which is what Pillow does for corners of
    magnitude up to [2 ^ 24], the integers that single precision holds
    exactly.  A statement whose corners can lie far outside the canvas
    carries that bound.  (The script never passes a box whose second corner
    precedes the first.) *)
Definition fill_box (img : Image) (xy : Box) (ink : Z) : Image :=
  let '(x0, y0, x1, y1) := xy in
  mkImage (im_size img)
    (imap (fun j row =>
             if (y0 <=? Z.of_nat j) && (Z.of_nat j <=? y1) then
               imap (fun i v =>
                       if (x0 <=? Z.of_nat i) && (Z.of_nat i <=? x1)
                       then clip8 ink else v) row
             else row)
          (im_rows img)).

(** The calls made on an [ImageDraw.Draw] object. *)
Inductive draw_call (Font : Type) : Type :=
| rectangle (xy : Box) (fill outline : option Z) (width : Z)
| ellipse (xy : Box) (fill outline : option Z) (width : Z)
| arc (xy : Box) (start end_ : Z) (fill : option Z) (width : Z)
| line (xy : list Z) (fill : option Z) (width : Z)
| polygon (xy : list (Z * Z)) (fill outline : option Z) (width : Z)
| text (xy : Z * Z) (s : string) (fill : option Z) (font : Font).
Arguments rectangle {Font} xy fill outline width.
Arguments ellipse {Font} xy fill outline width.
Arguments arc {Font} xy start end_ fill width.
Arguments line {Font} xy fill width.
Arguments polygon {Font} xy fill outline width.
Arguments text {Font} xy s fill font.

(** What the script takes from its environment: Pillow's fonts and the
    font file on disk ([truetype] raises when the file cannot be opened),
    the rasteriser for outlines, curves, polygons and glyphs (the samples
    [(x, y, value)] it writes for a call, given the image it draws on), and
    the Mersenne Twister behind [random].  Text measurement and drawing are
    taken to return for every font the environment provides, the built-in
    one included. *)
Class Environment : Type := {
  Font : Type;
  truetype : string -> Z -> result Font;
  load_default : Font;
  textbbox : Z * Z -> string -> Font -> Box;
  raster : draw_call Font -> Image -> list (Z * Z * Z);
  rng : Type;
  seed : Z -> rng;
  random : rng -> Py.float * rng
}.

Section Generators.

Context `{Environment}.

(** A call on the [Draw] object of [img]: it updates [img] in place. *)
Definition draw (img : Image) (c : draw_call Font) : Image :=
  match c with
  | rectangle xy (Some ink) None _ => fill_box img xy ink
  | _ => foldl (fun im '(x, y, v) => set_px im x y v) img (raster c img)
  end.

Definition create_checkerboard (size square_size : Z) : result Image :=
  img ← Image_new (size, size) 255;
  ys ← Py.range3 0 size square_size;
  for_ ys (fun y img =>
    xs ← Py.range3 0 size square_size;
    for_ xs (fun x img =>
      cx ← Py.floordiv x square_size;
      cy ← Py.floordiv y square_size;
      if (cx + cy) mod 2 =? 0 then
        Ok (draw img (rectangle (x, y, x + square_size - 1, y + square_size - 1)
                        (Some 0) None 1))
      else Ok img) img) img.

Definition create_gradient (width height : Z) (direction : string)
  : result Image :=
  img ← Image_new (width, height) 0;
  for_ (Py.range height) (fun y img =>
    for_ (Py.range width) (fun x img =>
      value ← (if String.eqb direction "horizontal" then
                 q ← Py.truediv x width; Py.int (Py.mul_int q 255)
               else if String.eqb direction "vertical" then
                 q ← Py.truediv y height; Py.int (Py.mul_int q 255)
               else
                 q ← Py.truediv (x + y) (width + height);
                 Py.int (Py.mul_int q 255));
      putpixel img (x, y) value) img) img.

Definition create_circle_pattern (size : Z) : result Image :=
  img ← Image_new (size, size) 255;
  let center := size / 2 in
  rs ← Py.range3 5 center 10;
  for_ rs (fun r img =>
    Ok (draw img (ellipse (center - r, center - r, center + r, center + r)
                    None (Some 0) 3))) img.

Definition create_test_logo (size : Z) : result Image :=
  img ← Image_new (size, size) 255;
  let margin := 10 in
  let img := draw img (rectangle (margin, margin, margin + 15, margin + 60) (Some 0) None 1) in
  let img := draw img (rectangle (margin, margin, margin + 25, margin + 10) (Some 0) None 1) in
  let img := draw img (rectangle (margin, margin + 25, margin + 20, margin + 35) (Some 0) None 1) in
  let img := draw img (rectangle (margin, margin + 50, margin + 25, margin + 60) (Some 0) None 1) in
  let x_offset := margin + 35 in
  let img := draw img (rectangle (x_offset, margin, x_offset + 10, margin + 60) (Some 0) None 1) in
  let img := draw img (ellipse (x_offset + 10, margin, x_offset + 35, margin + 30) None (Some 0) 3) in
  Ok img.

Definition create_icon_set : result (list (string * Image)) :=
  battery ← Image_new (32, 16) 255;
  let battery := draw battery (rectangle (0, 2, 28, 13) None (Some 0) 2) in
  let battery := draw battery (rectangle (28, 5, 31, 10) (Some 0) None 1) in
  let battery := draw battery (rectangle (3, 5, 12, 10) (Some 0) None 1) in
  wifi ← Image_new (24, 24) 255;
  let '(center_x, center_y) := (12, 20) in
  let wifi :=
    foldl (fun im r =>
             draw im (arc (center_x - r, center_y - r, center_x + r, center_y + r)
                        225 315 (Some 0) 2)) wifi [4; 8; 12] in
  let wifi := draw wifi (ellipse (center_x - 2, center_y - 2, center_x + 2, center_y + 2)
                           (Some 0) None 1) in
  clock ← Image_new (32, 32) 255;
  let clock := draw clock (ellipse (2, 2, 30, 30) None (Some 0) 2) in
  let center := 16 in
  let clock := draw clock (line [center; center; center; center - 8] (Some 0) 2) in
  let clock := draw clock (line [center; center; center + 6; center] (Some 0) 2) in
  warning ← Image_new (32, 32) 255;
  let points := [(16, 2); (30, 30); (2, 30)] in
  let warning := draw warning (polygon points None (Some 0) 2) in
  let warning := draw warning (line [16; 10; 16; 20] (Some 0) 2) in
  let warning := draw warning (ellipse (14, 23, 18, 27) (Some 0) None 1) in
  Ok [("battery"%string, battery); ("wifi"%string, wifi);
      ("clock"%string, clock); ("warning"%string, warning)].

Definition create_photo_like (size : Z) : result Image :=
  img ← Image_new (size, size) 128;
  let img := draw img (rectangle (0, 0, size, size / 2) (Some 200) None 1) in
  let img := draw img (rectangle (0, size / 2, size, size) (Some 100) None 1) in
  let house_x := size / 3 in
  let house_y := size / 2 - 30 in
  let house_w := size / 3 in
  let house_h := 40 in
  let img := draw img (rectangle (house_x, house_y, house_x + house_w, house_y + house_h)
                         (Some 50) None 1) in
  let roof_points :=
    [(house_x - 10, house_y);
     (house_x + house_w / 2, house_y - 20);
     (house_x + house_w + 10, house_y)] in
  let img := draw img (polygon roof_points (Some 30) None 1) in
  let win_size := 10 in
  let img := draw img (rectangle (house_x + 10, house_y + 10,
                                  house_x + 10 + win_size, house_y + 10 + win_size)
                         (Some 150) None 1) in
  let img := draw img (rectangle (house_x + house_w - 20, house_y + 10,
                                  house_x + house_w - 10, house_y + 10 + win_size)
                         (Some 150) None 1) in
  Ok img.

Definition create_text_image (s : string) (size : Z * Z) : result Image :=
  img ← Image_new size 255;
  let font :=
    match truetype "/usr/share/fonts/truetype/dejavu/DejaVuSans-Bold.ttf" 24 with
    | Ok f => f
    | Raise _ => load_default
    end in
  let '(b0, b1, b2, b3) := textbbox (0, 0) s font in
  let text_width := b2 - b0 in
  let text_height := b3 - b1 in
  let x := (size.1 - text_width) / 2 in
  let y := (size.2 - text_height) / 2 in
  Ok (draw img (text (x, y) s (Some 0) font)).

(** [random.seed(42)] replaces the state of the process-wide generator,
    so the function takes the state it finds and returns the one it leaves
    (an exception ends the script, and no state is reported with it). *)
Definition create_qr_code_like (size : Z) (g : rng) : result (Image * rng) :=
  img ← Image_new (size, size) 255;
  let g := seed 42 in
  let cell_size := 4 in
  ys ← Py.range3 0 size cell_size;
  '(img, g) ← for_ ys (fun y st =>
    xs ← Py.range3 0 size cell_size;
    for_ xs (fun x '(img, g) =>
      let '(u, g) := random g in
      if Py.gt u Py.half then
        Ok (draw img (rectangle (x, y, x + cell_size - 1, y + cell_size - 1)
                        (Some 0) None 1), g)
      else Ok (img, g)) st) (img, g);
  let marker_size := 12 in
  let img :=
    foldl (fun im '(c0, c1) =>
             draw im (rectangle (c0, c1, c0 + marker_size, c1 + marker_size)
                        None (Some 0) 2))
          img [(0, 0); (size - marker_size, 0); (0, size - marker_size)] in
  Ok (img, g).

(** One call of a generator with its arguments, as [main] makes them. *)
Inductive descriptor : Type :=
| Checkerboard (size square_size : Z)
| Gradient (width height : Z) (direction : string)
| CirclePattern (size : Z)
| TestLogo (size : Z)
| IconSet
| PhotoLike (size : Z)
| TextImage (s : string) (size : Z * Z)
| QrCodeLike (size : Z).

(** The call, in a process whose random generator is in state [g]: the
    images it returns and the state it leaves behind. *)
Definition generate (d : descriptor) (g : rng) : result (list Image * rng) :=
  match d with
  | Checkerboard size square_size =>
      img ← create_checkerboard size square_size; Ok ([img], g)
  | Gradient width height direction =>
      img ← create_gradient width height direction; Ok ([img], g)
  | CirclePattern size => img ← create_circle_pattern size; Ok ([img], g)
  | TestLogo size => img ← create_test_logo size; Ok ([img], g)
  | IconSet => icons ← create_icon_set; Ok (map snd icons, g)
  | PhotoLike size => img ← create_photo_like size; Ok ([img], g)
  | TextImage s size => img ← create_text_image s size; Ok ([img], g)
  | QrCodeLike size => '(img, g) ← create_qr_code_like size g; Ok ([img], g)
  end.

(** The calls of [main], in order (each image is then saved). *)
Definition main_calls : list descriptor :=
  [ Checkerboard 64 8; Checkerboard 64 8; Checkerboard 32 4; Checkerboard 128 16;
    Gradient 128 64 "horizontal"; Gradient 64 128 "vertical";
    Gradient 100 100 "diagonal";
    CirclePattern 100; CirclePattern 100;
    TestLogo 80; TestLogo 80; TestLogo 120;
    IconSet;
    PhotoLike 150; PhotoLike 150; PhotoLike 200;
    TextImage "E-Paper" (120, 40); TextImage "Hello!" (100, 30);
    TextImage "TEST" (80, 30);
    QrCodeLike 64; QrCodeLike 64;
    TestLogo 40; TestLogo 160 ].

Definition main (g : rng) : result (list Image * rng) :=
  for_ main_calls (fun d '(saved, g) =>
    '(imgs, g) ← generate d g; Ok (saved ++ imgs, g)) ([], g).

End Generators.

(** * Vocabulary of the statements *)

(** ** Rounding to nearest even *)

Module Round.

(** The integer nearest to [a / b], ties to even. *)
Definition rne_div (a b : Z) : Z :=
  let q := a / b in
  match 2 * (a mod b) ?= b with
  | Lt => q
  | Eq => if Z.even q then q else q + 1
  | Gt => q + 1
  end.

(** Where [a / b] sits between [a / b] rounded down and the next integer. *)
Definition loc_of (a b : Z) : location :=
  if a mod b =? 0 then loc_Exact else loc_Inexact (2 * (a mod b) ?= b).

(** The positive float of significand [m] and exponent [e], renormalised
    when rounding carried into the next binade. *)
Definition mkfloat (m e : Z) : Py.float :=
  if m =? 2 ^ 53 then S754_finite false (Z.to_pos (2 ^ 52)) (e + 1)
  else S754_finite false (Z.to_pos m) e.

(** The significand of an integer below 2^53, scaled to 53 bits. *)
Definition mant (n : Z) : Z := n * 2 ^ (53 - Zdigits2 n).

(** The scale at which the quotient [n / D] has 53 bits. *)
Definition scale (n D : Z) : Z :=
  53 + Zdigits2 D - Zdigits2 n
  - (if mant n * 2 ^ 53 / mant D <? 2 ^ 53 then 0 else 1).

End Round.

(** The pixel value of a gradient: [int((n / d) * 255)]. *)
Definition ramp (n d : Z) : result Z :=
  q ← Py.truediv n d; Py.int (Py.mul_int q 255).

(** ** Images *)

(** The rows of a well-formed image agree with its size. *)
Definition wf (img : Image) : Prop :=
  0 <= (im_size img).1 /\ 0 <= (im_size img).2 /\
  length (im_rows img) = Z.to_nat (im_size img).2 /\
  Forall (fun row => length row = Z.to_nat (im_size img).1) (im_rows img).

(** The pixel [(x, y)] lies inside the image. *)
Definition inside (img : Image) (x y : Z) : Prop :=
  0 <= x < (im_size img).1 /\ 0 <= y < (im_size img).2.

(** Membership of a pixel in a box, both corners included. *)
Definition in_box (b : Box) (x y : Z) : bool :=
  let '(x0, y0, x1, y1) := b in
  (x0 <=? x) && (x <=? x1) && (y0 <=? y) && (y <=? y1).

(** The cell corners visited by the checkerboard loops. *)
Definition corners (size square_size : Z) : list Z :=
  map (fun i => 0 + Z.of_nat i * square_size)
    (seq 0 (Z.to_nat ((size - 0 + square_size - 1) / square_size))).

(** The value the gradient loop computes for a pixel. *)
Definition gradient_value (width height : Z) (direction : string) (x y : Z)
  : result Z :=
  if String.eqb direction "horizontal" then ramp x width
  else if String.eqb direction "vertical" then ramp y height
  else ramp (x + y) (width + height).

(** The integer quotient behind each pixel value. *)
Definition gradient_quot (width height : Z) (direction : string) (x y : Z) : Z :=
  if String.eqb direction "horizontal" then 255 * x / width
  else if String.eqb direction "vertical" then 255 * y / height
  else 255 * (x + y) / (width + height).


(** ** The linear ramp over the rationals *)

(** Truncation of a rational towards zero. *)
Definition Qtruncate (q : Q) : Z :=
  if Qle_bool (inject_Z 0) q then Qfloor q else Qceiling q.

Inductive axis : Set := Horizontal | Vertical | Diagonal.

Definition axis_name (a : axis) : string :=
  match a with
  | Horizontal => "horizontal"
  | Vertical => "vertical"
  | Diagonal => "diagonal"
  end.

(** The ramp along the chosen axis, as a fraction of the full scale. *)
Definition linear_ramp (a : axis) (width height x y : Z) : Q :=
  match a with
  | Horizontal => Qdiv (inject_Z x) (inject_Z width)
  | Vertical => Qdiv (inject_Z y) (inject_Z height)
  | Diagonal => Qdiv (inject_Z (x + y)) (inject_Z (width + height))
  end.

(** The ramp scaled to [0, 255] and truncated to an integer. *)
Definition ramp_intensity (a : axis) (width height x y : Z) : Z :=
  Qtruncate (Qmult (linear_ramp a width height x y) (inject_Z 255)).

(** The coordinate a gradient varies along. *)
Definition along (direction : string) (x y : Z) : Z :=
  if String.eqb direction "horizontal" then x
  else if String.eqb direction "vertical" then y
  else x + y.

(** ** Buffers and what was asked for *)

(** [img] is a [w] by [h] buffer: [h] rows of [w] samples each. *)
Definition is_buffer (img : Image) (size : Z * Z) : Prop :=
  im_size img = size /\
  length (im_rows img) = Z.to_nat size.2 /\
  Forall (fun row => length row = Z.to_nat size.1) (im_rows img).

(** The sizes a call asks for, one per image it returns. *)
Definition requested (d : descriptor) : list (Z * Z) :=
  match d with
  | Checkerboard size _ => [(size, size)]
  | Gradient width height _ => [(width, height)]
  | CirclePattern size => [(size, size)]
  | TestLogo size => [(size, size)]
  | IconSet => [(32, 16); (24, 24); (32, 32); (32, 32)]
  | PhotoLike size => [(size, size)]
  | TextImage _ size => [size]
  | QrCodeLike size => [(size, size)]
  end.

(** A well-formed image of the given size. *)
Definition sized (size : Z * Z) (img : Image) : Prop :=
  wf img /\ im_size img = size.

(** [Image.new] returns a canvas of this size. *)
Definition granted (size : Z * Z) : bool :=
  match Image_new size 0 with
  | Ok _ => true
  | Raise _ => false
  end.

(** The arguments a call succeeds on: [Image.new] returns every canvas the
    call asks for, and the cells of a checkerboard have a positive side and
    corners that Pillow's drawing core holds exactly. *)
Definition valid (d : descriptor) : bool :=
  forallb granted (requested d) &&
  match d with
  | Checkerboard size square_size =>
      (0 <? square_size) && (size + square_size <=? 2 ^ 24)
  | _ => true
  end.

(** The images of a result, without the generator state. *)
Definition buffers {G : Type} (r : result (list Image * G)) : result (list Image) :=
  p ← r; Ok p.1.

(** A circle of radius [r] around [(c, c)]: outline only, three pixels wide. *)
Definition circle {Font : Type} (c r : Z) : draw_call Font :=
  ellipse (c - r, c - r, c + r, c + r) None (Some 0) 3.

(** The blank canvas the drawing generators start from. *)
Definition blank (size : Z * Z) (color : Z) : Image :=
  mkImage size (replicate (Z.to_nat size.2) (replicate (Z.to_nat size.1) (clip8 color))).

(** The body of [create_text_image] once the font is chosen. *)
Definition render_text `{Environment} (font : Font) (s : string) (size : Z * Z)
  : result Image :=
  img ← Image_new size 255;
  let '(b0, b1, b2, b3) := textbbox (0, 0) s font in
  let x := (size.1 - (b2 - b0)) / 2 in
  let y := (size.2 - (b3 - b1)) / 2 in
  Ok (draw img (text (x, y) s (Some 0) font)).

(** ** An environment to evaluate the generators in

    No font file on disk, a fixed-width built-in font, a rasteriser that
    writes nothing, and a linear congruential generator in place of the
    Mersenne Twister. *)
Definition plain_env : Environment := {|
  Font := unit;
  truetype := fun _ _ => Raise OSError;
  load_default := tt;
  textbbox := fun xy s _ => (xy.1, xy.2, xy.1 + 6 * Z.of_nat (String.length s), xy.2 + 11);
  raster := fun _ _ => [];
  rng := Z;
  seed := fun n => n;
  random := fun g =>
    let g' := (1103515245 * g + 12345) mod 2 ^ 31 in
    (SFdiv Py.prec Py.emax (Py.float_of_int g') (Py.float_of_int (2 ^ 31)), g')
|}.

(** ** An environment that inks

    The font file is on disk, a text box starts one pixel right of and
    three pixels below its anchor, and the rasteriser inks the whole
    bounding box of an ellipse or of a rectangle outline. *)

(** The integers from [a] to [b], both included. *)
Definition span (a b : Z) : list Z :=
  map (fun i => a + Z.of_nat i) (seq 0 (Z.to_nat (b - a + 1))).

(** One sample of value [v] for every pixel of the box. *)
Definition box_samples (b : Box) (v : Z) : list (Z * Z * Z) :=
  let '(x0, y0, x1, y1) := b in
  map (fun yx : Z * Z => (yx.2, yx.1, v)) (list_prod (span y0 y1) (span x0 x1)).

Definition inked_env : Environment := {|
  Font := Z;
  truetype := fun _ size => Ok size;
  load_default := 10;
  textbbox := fun xy s font =>
    (xy.1 + 1, xy.2 + 3,
     xy.1 + 1 + font / 4 * Z.of_nat (String.length s), xy.2 + 3 + font / 3);
  raster := fun c _ =>
    match c with
    | ellipse box _ (Some v) _ | ellipse box (Some v) None _ => box_samples box v
    | rectangle box _ (Some v) _ => box_samples box v
    | _ => []
    end;
  rng := Z;
  seed := fun n => n;
  random := fun g =>
    let g' := (1103515245 * g + 12345) mod 2 ^ 31 in
    (SFdiv Py.prec Py.emax (Py.float_of_int g') (Py.float_of_int (2 ^ 31)), g')
|}.

(** ** Tables, radii and generator states *)

(** The gradient as a table of integer quotients, row by row. *)
Definition gradient_table (width height : Z) (direction : string) : list (list Z) :=
  map (fun y => map (fun x => gradient_quot width height direction x y)
                  (Py.range width))
    (Py.range height).

(** The denominator of the ramp: the extent of the image along the axis. *)
Definition extent (direction : string) (width height : Z) : Z :=
  if String.eqb direction "horizontal" then width
  else if String.eqb direction "vertical" then height
  else width + height.

(** The radii of the concentric circles, in drawing order. *)
Definition circle_radii (size : Z) : list Z :=
  map (fun i => 5 + Z.of_nat i * 10)
    (seq 0 (Z.to_nat ((size / 2 - 5 + 10 - 1) / 10))).

(** The two window rectangles of the photo-like scene. *)
Definition window_boxes (size : Z) : Box * Box :=
  let house_x := size / 3 in
  let house_y := size / 2 - 30 in
  let house_w := size / 3 in
  let win_size := 10 in
  ((house_x + 10, house_y + 10, house_x + 10 + win_size, house_y + 10 + win_size),
   (house_x + house_w - 20, house_y + 10,
    house_x + house_w - 10, house_y + 10 + win_size)).

(** The state of the random generator after [n] calls of [random]. *)
Fixpoint spin `{Environment} (n : nat) (g : rng) : rng :=
  match n with
  | O => g
  | S n' => spin n' (random g).2
  end.

(** The number of cells along one side of the noise grid. *)
Definition qr_cells (size : Z) : nat := Z.to_nat ((size - 0 + 4 - 1) / 4).

(** The generator state a call leaves behind. *)
Definition state_after `{Environment} (d : descriptor) (g : rng) : rng :=
  match d with
  | QrCodeLike size => spin (qr_cells size * qr_cells size) (seed 42)
  | _ => g
  end.

(** ** Rasteriser footprints and fixed geometry *)

(** The rasteriser writes the call [c] inside the box [b] only. *)
Definition raster_within `{Environment} (c : draw_call Font) (b : Box) : Prop :=
  forall img x y v, In (x, y, v) (raster c img) -> in_box b x y = true.

(** A bounding box moved to the anchor [xy]. *)
Definition shift_box (xy : Z * Z) (b : Box) : Box :=
  let '(b0, b1, b2, b3) := b in (xy.1 + b0, xy.2 + b1, xy.1 + b2, xy.2 + b3).

(** The bounding box of the bowl of the logo's P. *)
Definition logo_bowl : Box :=
  let margin := 10 in
  let x_offset := margin + 35 in
  (x_offset + 10, margin, x_offset + 35, margin + 30).

(** The five filled rectangles of the logo: the E and the stem of the P. *)
Definition logo_ink (x y : Z) : bool :=
  let margin := 10 in
  let x_offset := margin + 35 in
  in_box (margin, margin, margin + 15, margin + 60) x y
  || in_box (margin, margin, margin + 25, margin + 10) x y
  || in_box (margin, margin + 25, margin + 20, margin + 35) x y
  || in_box (margin, margin + 50, margin + 25, margin + 60) x y
  || in_box (x_offset, margin, x_offset + 10, margin + 60) x y.

(** The roof of the photo-like scene and the box around its corners. *)
Definition roof_points (size : Z) : list (Z * Z) :=
  let house_x := size / 3 in
  let house_y := size / 2 - 30 in
  let house_w := size / 3 in
  [(house_x - 10, house_y);
   (house_x + house_w / 2, house_y - 20);
   (house_x + house_w + 10, house_y)].

Definition roof_box (size : Z) : Box :=
  let house_x := size / 3 in
  let house_y := size / 2 - 30 in
  let house_w := size / 3 in
  (house_x - 10, house_y - 20, house_x + house_w + 10, house_y).

Definition house_box (size : Z) : Box :=
  let house_x := size / 3 in
  let house_y := size / 2 - 30 in
  let house_w := size / 3 in
  let house_h := 40 in
  (house_x, house_y, house_x + house_w, house_y + house_h).

(** The tone of the photo-like scene away from the roof: windows over
    house over ground over sky. *)
Definition photo_tone (size x y : Z) : Z :=
  if in_box (window_boxes size).1 x y || in_box (window_boxes size).2 x y then 150
  else if in_box (house_box size) x y then 50
  else if size / 2 <=? y then 100
  else 200.

(** The boxes of the three corner markers of the noise grid. *)
Definition marker_boxes (size : Z) : list Box :=
  let marker_size := 12 in
  map (fun '(c0, c1) => (c0, c1, c0 + marker_size, c1 + marker_size))
    [(0, 0); (size - marker_size, 0); (0, size - marker_size)].

(** Whether the [k]-th number drawn after [random.seed(42)] exceeds 0.5. *)
Definition qr_bit `{Environment} (k : nat) : bool :=
  Py.gt (random (spin k (seed 42))).1 Py.half.

(** * The model on concrete inputs *)

Example truediv_1_3 :
  Py.truediv 1 3 = Ok (S754_finite false 6004799503160661 (-54)).
Proof. reflexivity. Qed.

Example truediv_by_zero : Py.truediv 1 0 = Raise ZeroDivisionError.
Proof. reflexivity. Qed.

Example ramp_127_128 : ramp 127 128 = Ok 253.
Proof. reflexivity. Qed.

Example ramp_99_100 : ramp 99 100 = Ok 252.
Proof. reflexivity. Qed.

Example range3_up : Py.range3 0 10 3 = Ok [0; 3; 6; 9].
Proof. reflexivity. Qed.

Example range3_down : Py.range3 10 0 (-3) = Ok [10; 7; 4; 1].
Proof. reflexivity. Qed.

Example range3_circles : Py.range3 5 50 10 = Ok [5; 15; 25; 35; 45].
Proof. reflexivity. Qed.

Example gradient_4_2_horizontal :
  create_gradient 4 2 "horizontal" =
  Ok (mkImage (4, 2) [[0; 63; 127; 191]; [0; 63; 127; 191]]).
Proof. vm_compute. reflexivity. Qed.

Example gradient_4_2_vertical :
  create_gradient 4 2 "vertical" =
  Ok (mkImage (4, 2) [[0; 0; 0; 0]; [127; 127; 127; 127]]).
Proof. vm_compute. reflexivity. Qed.

Example gradient_4_2_diagonal :
  create_gradient 4 2 "diagonal" =
  Ok (mkImage (4, 2) [[0; 42; 85; 127]; [42; 85; 127; 170]]).
Proof. vm_compute. reflexivity. Qed.

Example checkerboard_4_2 :
  @create_checkerboard plain_env 4 2 =
  Ok (mkImage (4, 4)
        [[0; 0; 255; 255]; [0; 0; 255; 255]; [255; 255; 0; 0]; [255; 255; 0; 0]]).
Proof. vm_compute. reflexivity. Qed.

Example checkerboard_zero_step :
  @create_checkerboard plain_env 5 0 = Raise ValueError.
Proof. reflexivity. Qed.

Example gradient_negative_width :
  create_gradient (-1) 2 "horizontal" = Raise ValueError.
Proof. reflexivity. Qed.

Example gradient_widest_line :
  create_gradient 536870910 0 "horizontal" = Ok (mkImage (536870910, 0) []).
Proof. reflexivity. Qed.

Example gradient_line_too_wide :
  create_gradient 536870911 0 "horizontal" = Raise MemoryError.
Proof. reflexivity. Qed.

(** * Facts about binary64 rounding *)

Module RoundFacts.

Import Py Round.

(** Case analysis on every integer test in the goal. *)
Ltac zcase :=
  match goal with
  | |- context [Z.eqb ?x ?y] => destruct (Z.eqb_spec x y)
  | |- context [Z.leb ?x ?y] => destruct (Z.leb_spec x y)
  | |- context [Z.ltb ?x ?y] => destruct (Z.ltb_spec x y)
  | |- context [Z.compare ?x ?y] => destruct (Z.compare_spec x y)
  end.
Ltac zcases := repeat (zcase; cbn [negb andb orb shr_record_of_loc]);
  solve [reflexivity | lia | exfalso; lia].

Lemma digits2_pos_bounds p :
  2 ^ (Zpos (digits2_pos p) - 1) <= Zpos p < 2 ^ Zpos (digits2_pos p).
Proof.
  induction p as [p IH|p IH|]; cbn [digits2_pos].
  - rewrite Pos2Z.inj_succ.
    replace (Z.succ (Zpos (digits2_pos p)) - 1) with (Zpos (digits2_pos p)) by lia.
    rewrite Z.pow_succ_r by lia.
    assert (2 ^ Zpos (digits2_pos p) = 2 * 2 ^ (Zpos (digits2_pos p) - 1)) as E.
    { rewrite <- Z.pow_succ_r by lia. f_equal. lia. }
    lia.
  - rewrite Pos2Z.inj_succ.
    replace (Z.succ (Zpos (digits2_pos p)) - 1) with (Zpos (digits2_pos p)) by lia.
    rewrite Z.pow_succ_r by lia.
    assert (2 ^ Zpos (digits2_pos p) = 2 * 2 ^ (Zpos (digits2_pos p) - 1)) as E.
    { rewrite <- Z.pow_succ_r by lia. f_equal. lia. }
    lia.
  - cbn. lia.
Qed.

Lemma Zdigits2_bounds m :
  0 < m -> 2 ^ (Zdigits2 m - 1) <= m < 2 ^ Zdigits2 m.
Proof. destruct m; try lia. intros _. apply digits2_pos_bounds. Qed.

Lemma Zdigits2_unique m d :
  2 ^ (d - 1) <= m < 2 ^ d -> 0 < m -> Zdigits2 m = d.
Proof.
  intros [Hlo Hhi] Hm.
  destruct (Zdigits2_bounds m Hm) as [Hlo' Hhi'].
  assert (0 < Zdigits2 m) by (destruct m; cbn; lia).
  assert (0 <= d).
  { destruct (Z.lt_ge_cases d 0) as [Hd|]; [|lia].
    rewrite (Z.pow_neg_r 2 d) in Hhi by lia. lia. }
  destruct (Z.lt_trichotomy (Zdigits2 m) d) as [Hlt|[->|Hgt]]; [|reflexivity|].
  - assert (2 ^ Zdigits2 m <= 2 ^ (d - 1)) by (apply Z.pow_le_mono_r; lia). lia.
  - assert (2 ^ d <= 2 ^ (Zdigits2 m - 1)) by (apply Z.pow_le_mono_r; lia). lia.
Qed.

Lemma loc_of_shr_record_of_loc m l :
  loc_of_shr_record (shr_record_of_loc m l) = l.
Proof. destruct l as [|[]]; reflexivity. Qed.

Lemma shr_m_of_loc m l : shr_m (shr_record_of_loc m l) = m.
Proof. destruct l as [|[]]; reflexivity. Qed.

Lemma rne_div_loc a b :
  0 < b -> round_nearest_even (a / b) (loc_of a b) = rne_div a b.
Proof.
  intros Hb. unfold loc_of, rne_div.
  destruct (Z.eqb_spec (a mod b) 0) as [E|E]; cbn.
  - rewrite E. destruct (Z.compare_spec (2 * 0) b); [lia|reflexivity|lia].
  - destruct (2 * (a mod b) ?= b); reflexivity.
Qed.

Lemma shr_1_spec m r s :
  0 <= m ->
  shr_1 (Build_shr_record m r s) = Build_shr_record (m / 2) (Z.odd m) (r || s).
Proof.
  intros Hm. rewrite <- Z.div2_div.
  destruct m as [|[p|p|]|]; try reflexivity. lia.
Qed.

Lemma shr_record_of_loc_bits a b :
  0 < b ->
  shr_record_of_loc (a / b) (loc_of a b) =
  Build_shr_record (a / b) (b <=? 2 * (a mod b))
    (negb (a mod b =? 0) && negb (2 * (a mod b) =? b)).
Proof.
  intros Hb. unfold loc_of. zcases.
Qed.

(** One more bit shifted out halves the scale of the quotient. *)
Lemma shr_1_loc a b :
  0 <= a -> 0 < b ->
  shr_1 (shr_record_of_loc (a / b) (loc_of a b)) =
  shr_record_of_loc (a / (b * 2)) (loc_of a (b * 2)).
Proof.
  intros Ha Hb.
  rewrite !shr_record_of_loc_bits by lia.
  rewrite shr_1_spec by (apply Z.div_pos; lia).
  rewrite <- Z.div_div by lia.
  rewrite (Z.rem_mul_r a b 2) by lia.
  pose proof (Z.mod_pos_bound a b Hb) as Hr.
  rewrite Zmod_odd. set (r := a mod b) in *.
  destruct (Z.odd (a / b)); f_equal; zcases.
Qed.

Lemma pow2_xO p : 2 ^ Zpos p~0 = 2 ^ Zpos p * 2 ^ Zpos p.
Proof.
  assert (Zpos p~0 = Zpos p + Zpos p) as -> by lia.
  apply Z.pow_add_r; lia.
Qed.

Lemma pow2_xI p : 2 ^ Zpos p~1 = 2 * (2 ^ Zpos p * 2 ^ Zpos p).
Proof.
  assert (Zpos p~1 = 1 + (Zpos p + Zpos p)) as -> by lia.
  rewrite !Z.pow_add_r by lia. reflexivity.
Qed.

Lemma iter_shr_1_loc a p : forall b,
  0 <= a -> 0 < b ->
  SpecFloat.iter_pos shr_1 p (shr_record_of_loc (a / b) (loc_of a b)) =
  shr_record_of_loc (a / (b * 2 ^ Zpos p)) (loc_of a (b * 2 ^ Zpos p)).
Proof.
  induction p as [p IH|p IH|]; intros b Ha Hb; cbn [SpecFloat.iter_pos].
  - assert (0 < 2 ^ Zpos p) by (apply Z.pow_pos_nonneg; lia).
    rewrite shr_1_loc, !IH by nia.
    rewrite pow2_xI. do 2 f_equal; lia.
  - assert (0 < 2 ^ Zpos p) by (apply Z.pow_pos_nonneg; lia).
    rewrite !IH by nia.
    rewrite pow2_xO. do 2 f_equal; lia.
  - rewrite shr_1_loc by lia. reflexivity.
Qed.

Lemma shr_loc a b e k :
  0 <= a -> 0 < b -> 0 <= k ->
  shr (shr_record_of_loc (a / b) (loc_of a b)) e k =
  (shr_record_of_loc (a / (b * 2 ^ k)) (loc_of a (b * 2 ^ k)), e + k).
Proof.
  intros Ha Hb Hk. destruct k as [|p|p]; [| |lia]; cbn [shr].
  - rewrite Z.mul_1_r, Z.add_0_r. reflexivity.
  - rewrite iter_shr_1_loc by lia. reflexivity.
Qed.

Lemma rne_div_bounds a b :
  0 < b -> a / b <= rne_div a b <= a / b + 1.
Proof.
  intros Hb. unfold rne_div.
  destruct (2 * (a mod b) ?= b); [destruct (Z.even (a / b))| |]; lia.
Qed.

(** Distance to the rounded quotient: at most half a unit. *)
Lemma rne_div_error a b :
  0 < b -> 2 * Z.abs (rne_div a b * b - a) <= b.
Proof.
  intros Hb. unfold rne_div.
  pose proof (Z.div_mod a b ltac:(lia)) as E.
  pose proof (Z.mod_pos_bound a b Hb) as Hr.
  destruct (Z.compare_spec (2 * (a mod b)) b); [destruct (Z.even (a / b))| |];
    nia.
Qed.

(** Rounding depends on the quotient only, not on the fraction that
    represents it. *)
Lemma rne_div_ratio a b a' b' :
  0 < b -> 0 < b' -> a * b' = a' * b -> rne_div a b = rne_div a' b'.
Proof.
  intros Hb Hb' E.
  assert (a / b = a' / b') as Eq.
  { rewrite <- (Z.div_mul_cancel_r a b b') by lia.
    rewrite <- (Z.div_mul_cancel_l a' b' b) by lia.
    rewrite E. f_equal. lia. }
  unfold rne_div. rewrite <- Eq.
  pose proof (Z.div_mod a b ltac:(lia)) as Ea.
  pose proof (Z.div_mod a' b' ltac:(lia)) as Ea'.
  rewrite <- Eq in Ea'.
  assert (a mod b * b' = a' mod b' * b) as Er by nia.
  assert ((2 * (a mod b) ?= b) = (2 * (a' mod b') ?= b')) as ->; [|reflexivity].
  destruct (Z.compare_spec (2 * (a mod b)) b), (Z.compare_spec (2 * (a' mod b')) b');
    try reflexivity; exfalso; nia.
Qed.

(** The rounding step shared by division and multiplication: a quotient
    with [k] bits too many is shifted right by [k] and rounded to nearest
    even. *)
Lemma binary_round_aux_spec a b k e :
  0 <= a -> 0 < b -> 0 <= k ->
  2 ^ (52 + k) <= a / b < 2 ^ (53 + k) ->
  -1074 <= e + k -> e + k + 1 <= 971 ->
  binary_round_aux prec emax false (a / b) e (loc_of a b) =
  mkfloat (rne_div a (b * 2 ^ k)) (e + k).
Proof.
  intros Ha Hb Hk Hq Hlo Hhi.
  assert (0 < 2 ^ k) as Hpk by (apply Z.pow_pos_nonneg; lia).
  assert (0 < 2 ^ 52) as Hp52 by reflexivity.
  assert (Zdigits2 (a / b) = 53 + k) as Hd.
  { apply Zdigits2_unique; [|rewrite Z.pow_add_r in Hq by lia; nia].
    replace (53 + k - 1) with (52 + k) by lia. exact Hq. }
  unfold binary_round_aux, shr_fexp. rewrite Hd.
  replace (fexp prec emax (53 + k + e) - e) with k
    by (unfold fexp, SpecFloat.emin, prec, emax; lia).
  rewrite shr_loc by lia.
  rewrite shr_m_of_loc, loc_of_shr_record_of_loc, rne_div_loc by nia.
  assert (2 ^ 52 <= a / (b * 2 ^ k) < 2 ^ 53) as Hq'.
  { rewrite <- Z.div_div by lia. rewrite !Z.pow_add_r in Hq by lia. split.
    - apply Z.div_le_lower_bound; lia.
    - apply Z.div_lt_upper_bound; lia. }
  pose proof (rne_div_bounds a (b * 2 ^ k) ltac:(nia)) as Hm.
  set (m := rne_div a (b * 2 ^ k)) in *.
  unfold mkfloat. destruct (Z.eqb_spec m (2 ^ 53)) as [E|E].
  - rewrite E. change (Zdigits2 (2 ^ 53)) with 54.
    replace (fexp prec emax (54 + (e + k)) - (e + k)) with 1
      by (unfold fexp, SpecFloat.emin, prec, emax; lia).
    cbn [shr_record_of_loc shr SpecFloat.iter_pos].
    change (shr_1 {| shr_m := 2 ^ 53; shr_r := false; shr_s := false |})
      with {| shr_m := 2 ^ 52; shr_r := false; shr_s := false |}.
    cbn [shr_m]. change (2 ^ 52) with (Zpos (Z.to_pos (2 ^ 52))) at 1.
    cbn iota beta.
    replace (e + k + 1 <=? emax - prec) with true
      by (symmetry; apply Z.leb_le; unfold emax, prec; lia).
    reflexivity.
  - assert (Zdigits2 m = 53) as Hdm by (apply Zdigits2_unique; lia).
    rewrite Hdm.
    replace (fexp prec emax (53 + (e + k)) - (e + k)) with 0
      by (unfold fexp, SpecFloat.emin, prec, emax; lia).
    cbn [shr_record_of_loc shr shr_m].
    destruct m as [|p|p]; [lia| |lia].
    replace (e + k <=? emax - prec) with true
      by (symmetry; apply Z.leb_le; unfold emax, prec; lia).
    reflexivity.
Qed.


Lemma binary_round_aux_exact m k e :
  0 <= k -> 2 ^ (52 + k) <= m < 2 ^ (53 + k) ->
  -1074 <= e + k -> e + k + 1 <= 971 ->
  binary_round_aux prec emax false m e loc_Exact =
  mkfloat (rne_div m (2 ^ k)) (e + k).
Proof.
  intros Hk Hm Hlo Hhi.
  assert (0 < 2 ^ (52 + k)) by (apply Z.pow_pos_nonneg; lia).
  pose proof (binary_round_aux_spec m 1 k e ltac:(lia) ltac:(lia) Hk) as H1.
  rewrite Z.div_1_r, Z.mul_1_l in H1. unfold loc_of in H1.
  rewrite Z.mod_1_r in H1. apply H1; assumption.
Qed.

Lemma rne_div_1 m : rne_div m 1 = m.
Proof. unfold rne_div. rewrite Z.mod_1_r, Z.div_1_r. reflexivity. Qed.

Lemma Zdigits2_range n : 0 < n < 2 ^ 53 -> 1 <= Zdigits2 n <= 53.
Proof.
  intros [Hn Hhi]. destruct (Zdigits2_bounds n Hn) as [Hlo _].
  split; [destruct n; cbn; lia|].
  destruct (Z.le_gt_cases (Zdigits2 n) 53) as [|Hgt]; [assumption|].
  assert (2 ^ 53 <= 2 ^ (Zdigits2 n - 1)) by (apply Z.pow_le_mono_r; lia). lia.
Qed.

Lemma iter_xO_pow p n : Zpos (Pos.iter xO p n) = Zpos p * 2 ^ Zpos n.
Proof.
  induction n as [|n IH] using Pos.peano_ind.
  - cbn. lia.
  - rewrite Pos.iter_succ, Pos2Z.inj_xO, IH, Pos2Z.inj_succ, Z.pow_succ_r by lia.
    lia.
Qed.

Lemma mant_bounds n : 0 < n < 2 ^ 53 -> 2 ^ 52 <= mant n < 2 ^ 53.
Proof.
  intros Hn. pose proof (Zdigits2_range n Hn) as Hd.
  destruct (Zdigits2_bounds n ltac:(lia)) as [Hlo Hhi]. unfold mant.
  assert (0 < 2 ^ (53 - Zdigits2 n)) by (apply Z.pow_pos_nonneg; lia).
  replace (2 ^ 52) with (2 ^ (Zdigits2 n - 1) * 2 ^ (53 - Zdigits2 n))
    by (rewrite <- Z.pow_add_r by lia; f_equal; lia).
  replace (2 ^ 53) with (2 ^ Zdigits2 n * 2 ^ (53 - Zdigits2 n))
    by (rewrite <- Z.pow_add_r by lia; f_equal; lia).
  nia.
Qed.

(** [float(n)] is exact below 2^53. *)
Lemma float_of_int_pos n :
  0 < n < 2 ^ 53 ->
  float_of_int n = S754_finite false (Z.to_pos (mant n)) (Zdigits2 n - 53).
Proof.
  intros Hn. pose proof (Zdigits2_range n Hn) as Hd.
  pose proof (mant_bounds n Hn) as Hm. unfold mant in *.
  destruct n as [|p|p]; try lia.
  unfold float_of_int, binary_normalize, binary_round.
  change (Zpos (digits2_pos p)) with (Zdigits2 (Zpos p)).
  set (d := Zdigits2 (Zpos p)) in *.
  replace (fexp prec emax (d + 0)) with (d - 53)
    by (unfold fexp, SpecFloat.emin, prec, emax; lia).
  assert (shl_align p 0 (d - 53) = (Z.to_pos (Zpos p * 2 ^ (53 - d)), d - 53)) as ->.
  { unfold shl_align. destruct (d - 53 - 0) as [|q|q] eqn:E; try lia.
    - replace (53 - d) with 0 by lia. replace d with 53 by lia.
      rewrite Z.mul_1_r. reflexivity.
    - replace (53 - d) with (Zpos q) by lia.
      rewrite <- iter_xO_pow. reflexivity. }
  rewrite Z2Pos.id by lia.
  rewrite (binary_round_aux_exact _ 0)
    by (change (52 + 0) with 52; change (53 + 0) with 53; lia).
  change (2 ^ 0) with 1. rewrite rne_div_1, Z.add_0_r. unfold mkfloat.
  destruct (Z.eqb_spec (Zpos p * 2 ^ (53 - d)) (2 ^ 53)); [lia|reflexivity].
Qed.

Lemma new_location_spec b r :
  0 <= r < b ->
  new_location b r = if r =? 0 then loc_Exact else loc_Inexact (2 * r ?= b).
Proof.
  intros Hr. unfold new_location, new_location_even, new_location_odd.
  destruct (Z.even b) eqn:Ev; [reflexivity|].
  destruct (Z.eqb_spec r 0); [reflexivity|]. f_equal.
  rewrite <- Z.negb_odd in Ev. apply negb_false_iff, Z.odd_spec in Ev.
  destruct Ev as [c ->].
  destruct (Z.compare_spec (2 * r + 1) (2 * c + 1)),
    (Z.compare_spec (2 * r) (2 * c + 1)); try reflexivity; lia.
Qed.

Lemma SFdiv_core_binary_spec mx ex my ey :
  2 ^ 52 <= mx < 2 ^ 53 -> 2 ^ 52 <= my < 2 ^ 53 ->
  -1074 <= ex - ey - 53 ->
  SFdiv_core_binary prec emax mx ex my ey =
  (mx * 2 ^ 53 / my, ex - ey - 53, loc_of (mx * 2 ^ 53) my).
Proof.
  intros Hx Hy He. unfold SFdiv_core_binary.
  rewrite (Zdigits2_unique mx 53), (Zdigits2_unique my 53) by (cbn; lia).
  replace (Z.min (fexp prec emax (53 + ex - (53 + ey))) (ex - ey))
    with (ex - ey - 53) by (unfold fexp, SpecFloat.emin, prec, emax; lia).
  replace (ex - ey - (ex - ey - 53)) with 53 by lia.
  cbn iota. rewrite Z.shiftl_mul_pow2 by lia.
  pose proof (Z.mod_pos_bound (mx * 2 ^ 53) my ltac:(lia)) as Hr.
  unfold loc_of. rewrite <- new_location_spec by exact Hr.
  unfold Z.div, Z.modulo. destruct (Z.div_eucl (mx * 2 ^ 53) my). reflexivity.
Qed.


(** The exponent of a quotient is determined by the quotient. *)
Lemma sandwich_unique n D L L' :
  0 < n -> 0 < D -> 0 <= L -> 0 <= L' ->
  2 ^ 52 * D <= n * 2 ^ L < 2 ^ 53 * D ->
  2 ^ 52 * D <= n * 2 ^ L' < 2 ^ 53 * D ->
  L = L'.
Proof.
  assert (forall a b, 0 < n -> 0 < D -> 0 <= a -> a < b ->
            2 ^ 52 * D <= n * 2 ^ a -> n * 2 ^ b < 2 ^ 53 * D -> False) as Hlt.
  { intros a b Hn HD Ha Hab H1 H2.
    assert (2 * 2 ^ a <= 2 ^ b).
    { rewrite <- Z.pow_succ_r by lia. apply Z.pow_le_mono_r; lia. }
    nia. }
  intros Hn HD HL HL' [H1 H2] [H1' H2'].
  destruct (Z.lt_trichotomy L L') as [?|[?|?]]; [exfalso|assumption|exfalso];
    eauto.
Qed.

Lemma scale_spec n D :
  0 < n < 2 ^ 53 -> 0 < D < 2 ^ 53 ->
  0 <= scale n D /\
  2 ^ 52 * D <= n * 2 ^ scale n D < 2 ^ 53 * D.
Proof.
  intros Hn HD.
  pose proof (Zdigits2_range n Hn) as Hdn.
  pose proof (Zdigits2_range D HD) as HdD.
  pose proof (mant_bounds n Hn) as Hmx.
  pose proof (mant_bounds D HD) as Hmy.
  unfold scale. set (q := mant n * 2 ^ 53 / mant D).
  assert (2 ^ 52 <= q < 2 ^ 54) as Hq.
  { split; [apply Z.div_le_lower_bound|apply Z.div_lt_upper_bound]; nia. }
  set (k := if q <? 2 ^ 53 then 0 else 1).
  assert (0 <= k <= 1 /\ 2 ^ (52 + k) <= q < 2 ^ (53 + k)) as [Hk Hqk].
  { unfold k. destruct (Z.ltb_spec q (2 ^ 53)); cbn; lia. }
  set (L' := 53 + Zdigits2 D - Zdigits2 n - k).
  assert (0 <= L') as HL' by (unfold L'; lia).
  split; [assumption|].
  assert (0 < 2 ^ (53 - Zdigits2 n)) as Hpn by (apply Z.pow_pos_nonneg; lia).
  assert (0 < 2 ^ (53 - Zdigits2 D)) as HpD by (apply Z.pow_pos_nonneg; lia).
  assert (0 < 2 ^ k) as Hpk by (apply Z.pow_pos_nonneg; lia).
  assert (0 < 2 ^ L') as HpL by (apply Z.pow_pos_nonneg; lia).
  assert (2 ^ (53 - Zdigits2 n) * 2 ^ 53 =
          2 ^ L' * (2 ^ (53 - Zdigits2 D) * 2 ^ k)) as Hpow.
  { rewrite <- !Z.pow_add_r by lia. f_equal. unfold L'. lia. }
  assert (mant n * 2 ^ 53 = n * 2 ^ L' * (2 ^ (53 - Zdigits2 D) * 2 ^ k)) as Hnum.
  { unfold mant. rewrite <- !Z.mul_assoc. f_equal. exact Hpow. }
  pose proof (Z.div_mod (mant n * 2 ^ 53) (mant D) ltac:(lia)) as Edm.
  pose proof (Z.mod_pos_bound (mant n * 2 ^ 53) (mant D) ltac:(lia)) as Hr.
  fold q in Edm. rewrite !Z.pow_add_r in Hqk by lia.
  set (X := 2 ^ (53 - Zdigits2 D) * 2 ^ k) in *.
  assert (0 < X) by (unfold X; nia).
  assert (mant D * 2 ^ k = D * X) as EX by (unfold mant, X; lia).
  split.
  - apply (Z.mul_le_mono_pos_r _ _ X); [assumption|]. nia.
  - apply (Z.mul_lt_mono_pos_r X); [assumption|]. nia.
Qed.

(** Division of two positive integers below 2^53: the quotient, scaled by
    the power of two that gives it 53 bits, rounded to nearest even. *)
Lemma SFdiv_int n D L :
  0 < n < 2 ^ 53 -> 0 < D < 2 ^ 53 -> 0 <= L ->
  2 ^ 52 * D <= n * 2 ^ L < 2 ^ 53 * D ->
  SFdiv prec emax (float_of_int n) (float_of_int D) =
  mkfloat (rne_div (n * 2 ^ L) D) (- L).
Proof.
  intros Hn HD HL HS.
  destruct (scale_spec n D Hn HD) as [HL' HS'].
  assert (L = scale n D) as -> by (apply (sandwich_unique n D); lia).
  clear HL HS.
  rewrite !float_of_int_pos by assumption.
  pose proof (Zdigits2_range n Hn) as Hdn.
  pose proof (Zdigits2_range D HD) as HdD.
  pose proof (mant_bounds n Hn) as Hmx.
  pose proof (mant_bounds D HD) as Hmy.
  cbn [SFdiv xorb]. rewrite !Z2Pos.id by lia.
  rewrite SFdiv_core_binary_spec by lia. cbn iota beta.
  unfold scale in *. set (q := mant n * 2 ^ 53 / mant D) in *.
  assert (2 ^ 52 <= q < 2 ^ 54) as Hq.
  { split; [apply Z.div_le_lower_bound|apply Z.div_lt_upper_bound]; nia. }
  set (k := if q <? 2 ^ 53 then 0 else 1) in *.
  assert (0 <= k <= 1 /\ 2 ^ (52 + k) <= q < 2 ^ (53 + k)) as [Hk Hqk].
  { unfold k. destruct (Z.ltb_spec q (2 ^ 53)); cbn; lia. }
  pose proof (binary_round_aux_spec (mant n * 2 ^ 53) (mant D) k
                (Zdigits2 n - 53 - (Zdigits2 D - 53) - 53)) as Hbra.
  fold q in Hbra. rewrite Hbra by lia. clear Hbra.
  set (L' := 53 + Zdigits2 D - Zdigits2 n - k) in *.
  assert (0 < 2 ^ k) as Hpk by (apply Z.pow_pos_nonneg; lia).
  f_equal; [|unfold L'; lia].
  assert (2 ^ (53 - Zdigits2 n) * 2 ^ 53 =
          2 ^ L' * (2 ^ (53 - Zdigits2 D) * 2 ^ k)) as Hpow.
  { rewrite <- !Z.pow_add_r by lia. f_equal. unfold L'. lia. }
  assert (mant n * 2 ^ 53 = n * 2 ^ L' * (2 ^ (53 - Zdigits2 D) * 2 ^ k)) as Hnum.
  { unfold mant. rewrite <- !Z.mul_assoc. f_equal. exact Hpow. }
  apply rne_div_ratio; [nia|lia|]. rewrite Hnum. unfold mant. lia.
Qed.

(** Multiplication of a positive binary64 value by [255]. *)
Lemma mul_int_255 p e :
  2 ^ 52 <= Zpos p < 2 ^ 53 -> -1000 <= e <= 900 ->
  let P := Zpos p * (255 * 2 ^ 45) in
  let k := if P <? 2 ^ 105 then 52 else 53 in
  mul_int (S754_finite false p e) 255 = mkfloat (rne_div P (2 ^ k)) (e - 45 + k).
Proof.
  intros Hp He P k. unfold mul_int.
  change (float_of_int 255)
    with (S754_finite false (Z.to_pos (255 * 2 ^ 45)) (-45)).
  cbn [SFmul xorb]. rewrite Pos2Z.inj_mul.
  change (Zpos (Z.to_pos (255 * 2 ^ 45))) with (255 * 2 ^ 45). fold P.
  assert (0 <= k /\ 2 ^ (52 + k) <= P < 2 ^ (53 + k)) as [Hk HP].
  { unfold k. destruct (Z.ltb_spec P (2 ^ 105)); unfold P in *; cbn; lia. }
  rewrite (binary_round_aux_exact P k) by (unfold k in *; destruct (P <? _); lia).
  reflexivity.
Qed.

(** [int] of a positive float below the integers' scale. *)
Lemma int_mkfloat m e :
  2 ^ 52 <= m <= 2 ^ 53 -> e <= -2 ->
  int (mkfloat m e) = Ok (m / 2 ^ (- e)).
Proof.
  intros Hm He. unfold mkfloat.
  destruct (Z.eqb_spec m (2 ^ 53)) as [->|Hne]; cbn [int cond_Zopp].
  - destruct (Z.ltb_spec (e + 1) 0); [|lia].
    rewrite Z.shiftr_div_pow2 by lia. f_equal.
    change (Zpos (Z.to_pos (2 ^ 52))) with (2 ^ 52).
    change (2 ^ 53) with (2 * 2 ^ 52).
    replace (2 ^ (- e)) with (2 * 2 ^ (- (e + 1)))
      by (rewrite <- Z.pow_succ_r by lia; f_equal; lia).
    rewrite Z.div_mul_cancel_l; [reflexivity| |lia].
    apply Z.pow_nonzero; lia.
  - destruct (Z.ltb_spec e 0); [|lia].
    rewrite Z.shiftr_div_pow2, Z2Pos.id by lia. reflexivity.
Qed.

(** The two rounding errors together stay below the distance of
    [255 n / D] to the neighbouring integers. *)
Lemma ramp_arith n D K r m1 m2 A B T :
  0 < D <= 2 ^ 45 -> 255 * n = K * D + r -> 0 < r < D ->
  2 ^ 53 <= A -> 0 < B <= 2 ^ 53 -> 0 < T -> T * B = 2 ^ 45 * A ->
  2 * Z.abs (m1 * D - n * A) <= D ->
  2 * Z.abs (m2 * B - m1 * (255 * 2 ^ 45)) <= B ->
  K * T <= m2 < (K + 1) * T.
Proof.
  intros HD En Hr HA HB HT ETB H1 H2.
  set (c := 2 ^ 45) in *.
  assert (0 < c) as Hc by reflexivity.
  assert (Z.abs (2 * m2 * B * D - 2 * 255 * c * n * A) <= (B + 255 * c) * D) as H3.
  { assert (Z.abs (2 * (m2 * B - m1 * (255 * c)) * D) <= B * D) as H2'.
    { rewrite Z.abs_mul, (Z.abs_eq D) by lia. rewrite Z.abs_mul. 
      change (Z.abs 2) with 2. nia. }
    assert (Z.abs (2 * (m1 * D - n * A) * (255 * c)) <= D * (255 * c)) as H1'.
    { rewrite Z.abs_mul, (Z.abs_eq (255 * c)) by lia. rewrite Z.abs_mul.
      change (Z.abs 2) with 2. nia. }
    lia. }
  assert (2 * 255 * c * n * A = 2 * K * T * B * D + 2 * c * A * r) as E1.
  { replace (2 * 255 * c * n * A) with (2 * c * A * (255 * n)) by lia.
    rewrite En. replace (2 * K * T * B * D) with (2 * K * D * (T * B)) by lia.
    rewrite ETB. lia. }
  assert ((B + 255 * c) * D < 2 * c * A) as Hsmall.
  { assert ((B + 255 * c) * D <= (2 ^ 53 + 255 * c) * 2 ^ 45) by nia.
    assert (2 * c * 2 ^ 53 <= 2 * c * A) by nia.
    unfold c in *. lia. }
  assert (2 * c * A <= 2 * c * A * r) as Hr1 by nia.
  assert (2 * c * A * r + 2 * c * A <= 2 * c * A * D) as Hr2 by nia.
  assert (0 < B * D) as HBD by nia.
  split.
  - apply (Z.mul_le_mono_pos_r _ _ (2 * (B * D))); [lia|]. lia.
  - apply (Z.mul_lt_mono_pos_r (2 * (B * D))); [lia|].
    replace ((K + 1) * T * (2 * (B * D))) with (2 * K * T * B * D + 2 * D * (T * B))
      by lia.
    rewrite ETB. lia.
Qed.


Lemma truediv_pos n D :
  D <> 0 -> truediv n D = Ok (SFdiv prec emax (float_of_int n) (float_of_int D)).
Proof. intros HD. unfold truediv. destruct (Z.eqb_spec D 0); [lia|reflexivity]. Qed.

(** When [255 n / D] is an integer the quotient is [K / 255]; these 254
    cases are evaluated. *)
Lemma ramp_255 K : 0 < K < 255 -> ramp K 255 = Ok K.
Proof.
  intros HK.
  assert (forallb (fun i => match ramp (Z.of_nat i) 255 with
                            | Ok v => v =? Z.of_nat i
                            | Raise _ => false
                            end) (seq 1 254) = true) as Hall
    by (vm_compute; reflexivity).
  rewrite forallb_forall in Hall.
  specialize (Hall (Z.to_nat K)). rewrite Z2Nat.id in Hall by lia.
  assert (In (Z.to_nat K) (seq 1 254)) as Hin by (apply in_seq; lia).
  specialize (Hall Hin). destruct (ramp K 255) as [v|]; [|discriminate].
  apply Z.eqb_eq in Hall. congruence.
Qed.

Lemma ramp_inexact n D m1 L1 :
  0 < n < D -> D <= 2 ^ 45 -> (255 * n) mod D <> 0 ->
  2 ^ 52 <= m1 < 2 ^ 53 -> 53 <= L1 <= 100 ->
  2 * Z.abs (m1 * D - n * 2 ^ L1) <= D ->
  int (mul_int (S754_finite false (Z.to_pos m1) (- L1)) 255) = Ok (255 * n / D).
Proof.
  intros Hn HD Hr Hm1 HL1 Herr.
  pose proof (mul_int_255 (Z.to_pos m1) (- L1)) as Hmul.
  rewrite Z2Pos.id in Hmul by lia. cbv zeta in Hmul.
  rewrite Hmul by lia. clear Hmul.
  set (P := m1 * (255 * 2 ^ 45)).
  set (k := if P <? 2 ^ 105 then 52 else 53).
  assert (52 <= k <= 53 /\ 2 ^ (52 + k) <= P < 2 ^ (53 + k)) as [Hk HP].
  { unfold k. destruct (Z.ltb_spec P (2 ^ 105)); unfold P in *; cbn; lia. }
  assert (0 < 2 ^ k) as Hpk by (apply Z.pow_pos_nonneg; lia).
  pose proof (rne_div_bounds P (2 ^ k) Hpk) as Hm2.
  pose proof (rne_div_error P (2 ^ k) Hpk) as Herr2.
  assert (2 ^ 52 <= P / 2 ^ k < 2 ^ 53) as Hq.
  { rewrite !Z.pow_add_r in HP by lia. split.
    - apply Z.div_le_lower_bound; lia.
    - apply Z.div_lt_upper_bound; lia. }
  set (m2 := rne_div P (2 ^ k)) in *.
  rewrite int_mkfloat by lia. f_equal.
  replace (- (- L1 - 45 + k)) with (L1 + 45 - k) by lia.
  set (T := 2 ^ (L1 + 45 - k)).
  assert (0 < T) as HT by (apply Z.pow_pos_nonneg; lia).
  pose proof (Z.div_mod (255 * n) D ltac:(lia)) as Edm.
  pose proof (Z.mod_pos_bound (255 * n) D ltac:(lia)) as Hrb.
  set (K := 255 * n / D) in *. set (r := (255 * n) mod D) in *.
  assert (K * T <= m2 < (K + 1) * T) as Hgoal.
  { apply (ramp_arith n D K r m1 m2 (2 ^ L1) (2 ^ k) T); try lia.
    - apply (Z.pow_le_mono_r 2 53 L1); lia.
    - split; [lia|]. apply (Z.pow_le_mono_r 2 k 53); lia.
    - unfold T. rewrite <- !Z.pow_add_r by lia. f_equal. lia. }
  symmetry. apply (Z.div_unique m2 T K (m2 - T * K)); lia.
Qed.

Lemma ramp_zero D : 0 < D < 2 ^ 53 -> ramp 0 D = Ok 0.
Proof.
  intros HD. unfold ramp. rewrite truediv_pos by lia.
  rewrite (float_of_int_pos D) by lia. reflexivity.
Qed.

(** Both roundings of [int((n / D) * 255)] are absorbed by the truncation:
    the float computation returns the integer quotient [255 n // D]. *)
Theorem ramp_exact n D :
  0 <= n < D -> D <= 2 ^ 45 -> ramp n D = Ok (255 * n / D).
Proof.
  intros Hn HD.
  assert (2 ^ 45 < 2 ^ 53) as H4553 by reflexivity.
  destruct (Z.eq_dec n 0) as [->|Hn0].
  { rewrite ramp_zero by lia. reflexivity. }
  destruct (scale_spec n D ltac:(lia) ltac:(lia)) as [HL HS].
  set (L := scale n D) in *.
  assert (0 < 2 ^ L) as HpL by (apply Z.pow_pos_nonneg; lia).
  pose proof (Z.div_mod (255 * n) D ltac:(lia)) as Edm.
  pose proof (Z.mod_pos_bound (255 * n) D ltac:(lia)) as Hrb.
  destruct (Z.eq_dec ((255 * n) mod D) 0) as [Hr|Hr].
  - set (K := 255 * n / D) in *.
    assert (0 < K < 255) as HK by nia.
    rewrite <- (ramp_255 K HK) at 1. unfold ramp.
    rewrite !truediv_pos by lia.
    rewrite (SFdiv_int n D L), (SFdiv_int K 255 L) by nia.
    rewrite (rne_div_ratio (n * 2 ^ L) D (K * 2 ^ L) 255) by nia.
    reflexivity.
  - unfold ramp. rewrite truediv_pos by lia.
    rewrite (SFdiv_int n D L) by lia.
    cbn [mbind result_bind].
    assert (53 <= L <= 97) as HLr.
    { split.
      - destruct (Z.le_gt_cases 53 L) as [|Hlt]; [assumption|exfalso].
        assert (2 ^ L <= 2 ^ 52) by (apply Z.pow_le_mono_r; lia). nia.
      - destruct (Z.le_gt_cases L 97) as [|Hgt]; [assumption|exfalso].
        assert (2 ^ 98 <= 2 ^ L) by (apply Z.pow_le_mono_r; lia). 
        assert (2 ^ 53 * D <= 2 ^ 98) by lia. nia. }
    pose proof (rne_div_bounds (n * 2 ^ L) D ltac:(lia)) as Hm.
    pose proof (rne_div_error (n * 2 ^ L) D ltac:(lia)) as Herr.
    assert (2 ^ 52 <= n * 2 ^ L / D < 2 ^ 53) as Hq.
    { split; [apply Z.div_le_lower_bound|apply Z.div_lt_upper_bound]; lia. }
    set (m := rne_div (n * 2 ^ L) D) in *.
    unfold mkfloat. destruct (Z.eqb_spec m (2 ^ 53)) as [Em|Em].
    + assert (2 ^ L = 2 * 2 ^ (L - 1)) as EL
        by (rewrite <- Z.pow_succ_r by lia; f_equal; lia).
      assert (54 <= L).
      { destruct (Z.eq_dec L 53) as [E53|]; [exfalso|lia].
        rewrite Em, E53 in Herr. lia. }
      replace (- L + 1) with (- (L - 1)) by lia.
      apply ramp_inexact; lia.
    + apply ramp_inexact; lia.
Qed.


End RoundFacts.

(** * Facts about images *)

Module ImageFacts.

Lemma getpixel_inside img x y :
  wf img -> is_Some (getpixel img (x, y)) <-> inside img x y.
Proof.
  intros (Hw & Hh & Hlen & Hrows). unfold getpixel, inside.
  destruct (Z.leb_spec 0 x), (Z.leb_spec 0 y); cbn [andb];
    try (split; [intros [? ?]; discriminate|lia]).
  destruct (im_rows img !! Z.to_nat y) as [row|] eqn:Erow; cbn.
  - pose proof (lookup_lt_Some _ _ _ Erow) as Hy.
    rewrite Forall_lookup in Hrows. specialize (Hrows _ _ Erow).
    rewrite lookup_lt_is_Some. lia.
  - apply lookup_ge_None_1 in Erow. split; [intros [? ?]; discriminate|lia].
Qed.

Lemma Image_new_inv w h c img :
  Image_new (w, h) c = Ok img ->
  0 <= w < 2 ^ 31 /\ 0 <= h < 2 ^ 31 /\
  img = mkImage (w, h) (replicate (Z.to_nat h) (replicate (Z.to_nat w) (clip8 c))).
Proof.
  unfold Image_new.
  destruct (Z.ltb_spec w 0), (Z.ltb_spec h 0); cbn [orb]; try discriminate.
  destruct (Z.leb_spec (2 ^ 31) w), (Z.leb_spec (2 ^ 31) h); cbn [orb];
    try discriminate.
  destruct (Z.ltb_spec max_width w); try discriminate.
  intros [= <-]. repeat split; lia.
Qed.

Lemma Image_new_width w h c img :
  Image_new (w, h) c = Ok img -> w <= max_width.
Proof.
  unfold Image_new.
  destruct (_ || _); [discriminate|]. destruct (_ || _); [discriminate|].
  destruct (Z.ltb_spec max_width w); [discriminate|]. intros _. assumption.
Qed.

Lemma Image_new_ok w h c :
  0 <= w <= max_width -> 0 <= h < 2 ^ 31 ->
  Image_new (w, h) c =
  Ok (mkImage (w, h) (replicate (Z.to_nat h) (replicate (Z.to_nat w) (clip8 c)))).
Proof.
  intros Hw Hh. unfold Image_new.
  assert (max_width < 2 ^ 31) by reflexivity.
  destruct (Z.ltb_spec w 0), (Z.ltb_spec h 0); try lia.
  destruct (Z.leb_spec (2 ^ 31) w), (Z.leb_spec (2 ^ 31) h); try lia.
  destruct (Z.ltb_spec max_width w); try lia.
  reflexivity.
Qed.

(** Whether [Image.new] returns does not depend on the colour. *)
Lemma Image_new_colour w h c c' img :
  Image_new (w, h) c = Ok img ->
  Image_new (w, h) c' =
  Ok (mkImage (w, h) (replicate (Z.to_nat h) (replicate (Z.to_nat w) (clip8 c')))).
Proof.
  intros Hrun. pose proof (Image_new_width _ _ _ _ Hrun).
  apply Image_new_inv in Hrun as (Hw & Hh & _).
  apply Image_new_ok; lia.
Qed.

Lemma blank_wf w h v :
  0 <= w -> 0 <= h ->
  wf (mkImage (w, h) (replicate (Z.to_nat h) (replicate (Z.to_nat w) v))).
Proof.
  intros Hw Hh. repeat split; cbn; try lia.
  - apply length_replicate.
  - apply Forall_replicate, length_replicate.
Qed.

Lemma getpixel_blank w h v x y :
  0 <= x < w -> 0 <= y < h ->
  getpixel (mkImage (w, h) (replicate (Z.to_nat h) (replicate (Z.to_nat w) v)))
    (x, y) = Some v.
Proof.
  intros Hx Hy. unfold getpixel. cbn [im_rows].
  destruct (Z.leb_spec 0 x), (Z.leb_spec 0 y); try lia. cbn [andb].
  rewrite lookup_replicate_2 by lia. cbn.
  apply lookup_replicate_2. lia.
Qed.

Lemma set_px_size img x y v : im_size (set_px img x y v) = im_size img.
Proof. unfold set_px. destruct (_ && _); reflexivity. Qed.

Lemma set_px_wf img x y v : wf img -> wf (set_px img x y v).
Proof.
  intros (Hw & Hh & Hlen & Hrows). unfold set_px.
  destruct (_ && _); [|repeat split; assumption].
  repeat split; cbn [im_size im_rows]; try assumption.
  - rewrite length_alter. assumption.
  - apply Forall_alter; [assumption|].
    intros row _. rewrite length_insert.
    intros Hrow. exact Hrow.
Qed.

Lemma getpixel_set_px img x y v x' y' :
  getpixel (set_px img x y v) (x', y') =
  if (x =? x') && (y =? y') then (fun _ => clip8 v) <$> getpixel img (x', y')
  else getpixel img (x', y').
Proof.
  unfold set_px, getpixel.
  destruct (Z.leb_spec 0 x'), (Z.leb_spec 0 y'); cbn [andb];
    try (destruct (_ && _); reflexivity).
  destruct (Z.leb_spec 0 x), (Z.leb_spec 0 y); cbn [andb im_rows];
    try (destruct (Z.eqb_spec x x'), (Z.eqb_spec y y'); cbn [andb];
         try reflexivity; lia).
  rewrite list_lookup_alter.
  destruct (decide (Z.to_nat y = Z.to_nat y')) as [Ey|Ey].
  - assert (y = y') as -> by lia. rewrite Z.eqb_refl, andb_true_r.
    destruct (im_rows img !! Z.to_nat y') as [row|]; cbn;
      [|destruct (x =? x'); reflexivity].
    rewrite list_lookup_insert.
    destruct (Z.eqb_spec x x') as [->|Hne].
    + destruct (decide _) as [[_ Hlt]|Hn].
      * apply lookup_lt_is_Some_2 in Hlt. destruct Hlt as [? ->]. reflexivity.
      * rewrite lookup_ge_None_2 by lia. reflexivity.
    + destruct (decide _) as [[Heq _]|_]; [lia|reflexivity].
  - destruct (Z.eqb_spec y y'); [lia|]. rewrite andb_false_r. reflexivity.
Qed.

Lemma fill_box_size img xy ink : im_size (fill_box img xy ink) = im_size img.
Proof. destruct xy as [[[? ?] ?] ?]. reflexivity. Qed.

Lemma fill_box_wf img xy ink : wf img -> wf (fill_box img xy ink).
Proof.
  destruct xy as [[[x0 y0] x1] y1].
  intros (Hw & Hh & Hlen & Hrows).
  repeat split; cbn [fill_box im_size im_rows]; try assumption.
  - rewrite length_imap. assumption.
  - rewrite Forall_lookup in Hrows |- *. intros j row.
    rewrite list_lookup_imap.
    destruct (im_rows img !! j) as [row0|] eqn:E; [|discriminate].
    cbn. intros [= <-]. specialize (Hrows _ _ E).
    destruct (_ && _); [rewrite length_imap|]; assumption.
Qed.

Lemma getpixel_fill_box img x0 y0 x1 y1 ink x y :
  getpixel (fill_box img (x0, y0, x1, y1) ink) (x, y) =
  if (x0 <=? x) && (x <=? x1) && (y0 <=? y) && (y <=? y1)
  then (fun _ => clip8 ink) <$> getpixel img (x, y)
  else getpixel img (x, y).
Proof.
  unfold getpixel, fill_box. cbn [im_rows].
  destruct (Z.leb_spec 0 x), (Z.leb_spec 0 y); cbn [andb];
    try (destruct (_ && _); reflexivity).
  rewrite list_lookup_imap.
  destruct (im_rows img !! Z.to_nat y) as [row|]; cbn;
    [|destruct (_ && _); reflexivity].
  rewrite !Z2Nat.id by lia.
  destruct (Z.leb_spec y0 y), (Z.leb_spec y y1); cbn [andb];
    rewrite ?andb_false_r; try reflexivity.
  rewrite list_lookup_imap, Z2Nat.id by lia.
  rewrite !andb_true_r.
  destruct (row !! Z.to_nat x); cbn; destruct (_ && _); reflexivity.
Qed.

End ImageFacts.

(** * Loops *)

Module LoopFacts.

Lemma Ok_inj {A} (a b : A) : Ok a = Ok b -> a = b.
Proof. congruence. Qed.

Lemma for_ext {A S} (l : list A) (body body' : A -> S -> result S) s :
  (forall a s, In a l -> body a s = body' a s) ->
  for_ l body s = for_ l body' s.
Proof.
  revert s. induction l as [|a l IH]; intros s Hext; [reflexivity|].
  cbn [for_]. rewrite Hext by (left; reflexivity).
  destruct (body' a s) as [s'|e]; [|reflexivity].
  cbn. apply IH. intros; apply Hext. right; assumption.
Qed.

Lemma for_app {A S} (l1 l2 : list A) (body : A -> S -> result S) s :
  for_ (l1 ++ l2) body s = s' ← for_ l1 body s; for_ l2 body s'.
Proof.
  revert s. induction l1 as [|a l1 IH]; intros s; [reflexivity|].
  cbn [for_ app]. destruct (body a s) as [s'|e]; [|reflexivity].
  cbn. apply IH.
Qed.

Lemma for_map {A B S} (f : A -> B) (l : list A) (body : B -> S -> result S) s :
  for_ (map f l) body s = for_ l (fun a => body (f a)) s.
Proof.
  revert s. induction l as [|a l IH]; intros s; [reflexivity|].
  cbn [for_ map]. destruct (body (f a) s) as [s'|e]; [|reflexivity].
  cbn. apply IH.
Qed.

(** Two nested loops visit the pairs of the product, outer index first. *)
Lemma for_nested {A B S} (l1 : list A) (l2 : list B)
      (body : A -> B -> S -> result S) s :
  for_ l1 (fun a s => for_ l2 (body a) s) s =
  for_ (list_prod l1 l2) (fun ab => body ab.1 ab.2) s.
Proof.
  revert s. induction l1 as [|a l1 IH]; intros s; [reflexivity|].
  cbn [for_ list_prod]. rewrite for_app, for_map. cbn [fst snd].
  destruct (for_ l2 _ s) as [s'|e]; [|reflexivity].
  cbn. apply IH.
Qed.

(** A loop whose body cannot raise is a left fold. *)
Lemma for_pure {A S} (l : list A) (f : S -> A -> S) s :
  for_ l (fun a s => Ok (f s a)) s = Ok (foldl f s l).
Proof.
  revert s. induction l as [|a l IH]; intros s; [reflexivity|].
  cbn [for_ foldl]. cbn. apply IH.
Qed.

Lemma foldl_inv {A S} (P : S -> Prop) (f : S -> A -> S) (l : list A) s :
  P s -> (forall s a, P s -> P (f s a)) -> P (foldl f s l).
Proof.
  intros Hs Hf. revert s Hs. induction l as [|a l IH]; intros s Hs; cbn; auto.
Qed.

Lemma for_inv {A S} (P : S -> Prop) (l : list A) (body : A -> S -> result S)
      s s' :
  P s -> (forall a s s', In a l -> P s -> body a s = Ok s' -> P s') ->
  for_ l body s = Ok s' -> P s'.
Proof.
  revert s. induction l as [|a l IH]; intros s Hs Hb; cbn [for_].
  - intros [= <-]. assumption.
  - destruct (body a s) as [s1|e] eqn:E; [|discriminate]. cbn.
    apply IH; [eapply Hb; [left; reflexivity|eassumption..]|].
    intros; eapply Hb; [right|..]; eassumption.
Qed.

Lemma range3_pos start stop step :
  0 < step ->
  Py.range3 start stop step =
  Ok (map (fun i => start + Z.of_nat i * step)
        (seq 0 (Z.to_nat ((stop - start + step - 1) / step)))).
Proof.
  intros Hs. unfold Py.range3.
  destruct (Z.eqb_spec step 0); [lia|].
  destruct (Z.ltb_spec 0 step); [reflexivity|lia].
Qed.

Lemma In_range3 start stop step v :
  0 < step ->
  In v (map (fun i => start + Z.of_nat i * step)
          (seq 0 (Z.to_nat ((stop - start + step - 1) / step)))) <->
  exists i, 0 <= i /\ v = start + i * step /\ v < stop.
Proof.
  intros Hs. rewrite in_map_iff. split.
  - intros (i & <- & Hi%in_seq). exists (Z.of_nat i).
    split; [lia|]. split; [reflexivity|].
    destruct (Z.le_gt_cases (stop - start + step - 1) (-1 )) as [Hneg|Hpos].
    + assert ((stop - start + step - 1) / step < 0)
        by (apply Z.div_lt_upper_bound; lia). lia.
    + assert (Z.of_nat i < (stop - start + step - 1) / step) as Hlt by lia.
      assert (Z.of_nat i + 1 <= (stop - start + step - 1) / step) as Hle by lia.
      pose proof (Z.mul_div_le (stop - start + step - 1) step Hs). nia.
  - intros (i & Hi & -> & Hlt). exists (Z.to_nat i).
    rewrite Z2Nat.id by lia. split; [reflexivity|].
    apply in_seq. split; [lia|].
    assert (i < (stop - start + step - 1) / step); [|lia].
    apply Z.div_le_lower_bound with (a := stop - start + step - 1) (q := i + 1) in Hs as Hd;
      [lia|lia].
Qed.

Lemma In_range stop v : In v (Py.range stop) <-> 0 <= v < stop.
Proof.
  unfold Py.range. rewrite in_map_iff. split.
  - intros (i & <- & Hi%in_seq). lia.
  - intros Hv. exists (Z.to_nat v). rewrite Z2Nat.id by lia.
    split; [reflexivity|]. apply in_seq. lia.
Qed.

End LoopFacts.

(** * The generators *)

Section GeneratorFacts.

Context {env : Environment}.

Import ImageFacts LoopFacts.

Lemma draw_size img c : im_size (draw img c) = im_size img.
Proof.
  assert (forall l im,
            im_size (foldl (fun im '(x, y, v) => set_px im x y v) im l) = im_size im)
    as Hfold.
  { induction l as [|[[x y] v] l IH]; intros im; [reflexivity|].
    cbn [foldl]. rewrite IH. apply set_px_size. }
  destruct c as [xy [ink|] [o|] w| | | | |]; cbn [draw];
    auto using fill_box_size.
Qed.

Lemma draw_wf img c : wf img -> wf (draw img c).
Proof.
  intros Hwf.
  assert (forall l im, wf im ->
            wf (foldl (fun im '(x, y, v) => set_px im x y v) im l)) as Hfold.
  { induction l as [|[[x y] v] l IH]; intros im Him; [assumption|].
    cbn [foldl]. apply IH, set_px_wf, Him. }
  destruct c as [xy [ink|] [o|] w| | | | |]; cbn [draw];
    auto using fill_box_wf.
Qed.

Lemma getpixel_foldl_fill {A} (sel : A -> bool) (box : A -> Box) ink l :
  forall img x y,
  getpixel (foldl (fun im a => if sel a then fill_box im (box a) ink else im)
              img l) (x, y) =
  if existsb (fun a => sel a && in_box (box a) x y) l
  then (fun _ => clip8 ink) <$> getpixel img (x, y)
  else getpixel img (x, y).
Proof.
  induction l as [|a l IH]; intros img x y; [reflexivity|].
  cbn [foldl existsb]. rewrite IH.
  destruct (sel a); cbn [andb orb]; [|reflexivity].
  destruct (box a) as [[[x0 y0] x1] y1]. rewrite getpixel_fill_box.
  cbn [in_box]. destruct (_ && _ && _ && _); cbn [orb].
  - destruct (existsb _ l), (getpixel img (x, y)); reflexivity.
  - reflexivity.
Qed.

Lemma create_checkerboard_fold size sq :
  0 < sq -> 0 <= size <= max_width ->
  create_checkerboard size sq =
  Ok (foldl (fun im yx =>
               if (yx.2 / sq + yx.1 / sq) mod 2 =? 0
               then fill_box im (yx.2, yx.1, yx.2 + sq - 1, yx.1 + sq - 1) 0
               else im)
        (mkImage (size, size)
           (replicate (Z.to_nat size) (replicate (Z.to_nat size) (clip8 255))))
        (list_prod (corners size sq) (corners size sq))).
Proof.
  intros Hsq Hsize. unfold create_checkerboard.
  rewrite Image_new_ok, range3_pos by lia. cbn [mbind result_bind].
  fold (corners size sq).
  set (paint := fun (im : Image) (yx : Z * Z) =>
                  if (yx.2 / sq + yx.1 / sq) mod 2 =? 0
                  then fill_box im (yx.2, yx.1, yx.2 + sq - 1, yx.1 + sq - 1) 0
                  else im).
  set (cells := corners size sq). set (blank := mkImage _ _).
  transitivity (for_ cells (fun y s => for_ cells (fun x s => Ok (paint s (y, x))) s)
                  blank).
  { apply for_ext. intros y img _. cbn [mbind result_bind].
    apply for_ext. intros x img' _. unfold Py.floordiv, paint.
    destruct (Z.eqb_spec sq 0); [lia|]. cbn [mbind result_bind fst snd].
    destruct (_ =? 0); reflexivity. }
  rewrite (for_nested cells cells (fun y x s => Ok (paint s (y, x)))).
  transitivity (for_ (list_prod cells cells) (fun yx s => Ok (paint s yx)) blank).
  { apply for_ext. intros [y x] s _. reflexivity. }
  apply for_pure.
Qed.

Lemma In_corners size sq v :
  0 < sq -> In v (corners size sq) <-> exists i, 0 <= i /\ v = i * sq /\ v < size.
Proof.
  intros Hsq. unfold corners. rewrite In_range3 by assumption.
  split; intros (i & Hi & Hv & Hlt); exists i; repeat split; lia.
Qed.

Lemma checker_cover size sq px py :
  0 < sq -> 0 <= px < size -> 0 <= py < size ->
  existsb (fun yx : Z * Z =>
             ((yx.2 / sq + yx.1 / sq) mod 2 =? 0)
             && in_box (yx.2, yx.1, yx.2 + sq - 1, yx.1 + sq - 1) px py)
    (list_prod (corners size sq) (corners size sq)) =
  ((px / sq + py / sq) mod 2 =? 0).
Proof.
  intros Hsq Hpx Hpy. apply eq_iff_eq_true. rewrite existsb_exists. split.
  - intros ([y x] & Hin & Hc). apply in_prod_iff in Hin as [Hy Hx].
    apply In_corners in Hy as (j & Hj & -> & _); [|assumption].
    apply In_corners in Hx as (i & Hi & -> & _); [|assumption].
    cbn [fst snd in_box] in Hc.
    apply andb_true_iff in Hc as [Hpar Hbox].
    repeat (apply andb_true_iff in Hbox as [Hbox ?]).
    rewrite !Z.div_mul in Hpar by lia.
    assert (px / sq = i) as -> by (symmetry; apply (Z.div_unique px sq i (px - i * sq)); lia).
    assert (py / sq = j) as -> by (symmetry; apply (Z.div_unique py sq j (py - j * sq)); lia).
    assumption.
  - intros Hpar. exists (py / sq * sq, px / sq * sq).
    pose proof (Z.div_mod px sq ltac:(lia)) as Ex.
    pose proof (Z.mod_pos_bound px sq Hsq) as Hrx.
    pose proof (Z.div_mod py sq ltac:(lia)) as Ey.
    pose proof (Z.mod_pos_bound py sq Hsq) as Hry.
    assert (0 <= px / sq) by (apply Z.div_pos; lia).
    assert (0 <= py / sq) by (apply Z.div_pos; lia).
    split.
    + apply in_prod_iff. split; apply In_corners; try assumption.
      * exists (py / sq). repeat split; lia.
      * exists (px / sq). repeat split; lia.
    + cbn [fst snd in_box]. rewrite !Z.div_mul by lia. rewrite Hpar.
      cbn [andb]. repeat (apply andb_true_iff; split); apply Z.leb_le; lia.
Qed.


(** ** Gradient *)

Lemma gradient_value_exact W H d x y :
  0 <= x < W -> 0 <= y < H -> W < 2 ^ 31 -> H < 2 ^ 31 ->
  gradient_value W H d x y = Ok (gradient_quot W H d x y).
Proof.
  intros Hx Hy HW HH. unfold gradient_value, gradient_quot.
  assert (2 ^ 31 + 2 ^ 31 <= 2 ^ 45) by (cbn; lia).
  destruct (String.eqb d "horizontal"); [apply RoundFacts.ramp_exact; lia|].
  destruct (String.eqb d "vertical"); apply RoundFacts.ramp_exact; lia.
Qed.

Lemma gradient_quot_range W H d x y :
  0 <= x < W -> 0 <= y < H -> 0 <= gradient_quot W H d x y <= 254.
Proof.
  intros Hx Hy. unfold gradient_quot.
  assert (forall n D, 0 <= n < D -> 0 <= 255 * n / D <= 254) as Hq.
  { intros n D Hn. split; [apply Z.div_pos; lia|].
    assert (255 * n / D < 255); [|lia].
    apply Z.div_lt_upper_bound; lia. }
  destruct (String.eqb d "horizontal"); [apply Hq; lia|].
  destruct (String.eqb d "vertical"); apply Hq; lia.
Qed.

Lemma putpixel_inside img x y v :
  inside img x y -> putpixel img (x, y) v = Ok (set_px img x y v).
Proof.
  unfold inside, putpixel. destruct (im_size img) as [w h]. cbn [fst snd].
  intros [Hx Hy].
  destruct (Z.ltb_spec x 0), (Z.ltb_spec y 0); try lia.
  destruct (Z.leb_spec 0 x), (Z.ltb_spec x w), (Z.leb_spec 0 y), (Z.ltb_spec y h);
    try lia.
  reflexivity.
Qed.

Lemma for_ext_inv {A S} (P : S -> Prop) (l : list A)
      (body body' : A -> S -> result S) s :
  P s ->
  (forall a s, In a l -> P s -> body a s = body' a s) ->
  (forall a s s', In a l -> P s -> body' a s = Ok s' -> P s') ->
  for_ l body s = for_ l body' s.
Proof.
  revert s. induction l as [|a l IH]; intros s Hs Hext Hinv; [reflexivity|].
  cbn [for_]. rewrite Hext by (auto; left; reflexivity).
  destruct (body' a s) as [s'|e] eqn:E; [|reflexivity].
  cbn. apply IH.
  - eapply Hinv; [left; reflexivity|eassumption..].
  - intros; apply Hext; [right|]; assumption.
  - intros; eapply Hinv; [right|..]; eassumption.
Qed.

Lemma getpixel_foldl_set (g : Z -> Z -> Z) l :
  forall img x y,
  getpixel (foldl (fun im (yx : Z * Z) => set_px im yx.2 yx.1 (g yx.2 yx.1))
              img l) (x, y) =
  if existsb (fun yx : Z * Z => (yx.2 =? x) && (yx.1 =? y)) l
  then (fun _ => clip8 (g x y)) <$> getpixel img (x, y)
  else getpixel img (x, y).
Proof.
  induction l as [|[b a] l IH]; intros img x y; [reflexivity|].
  cbn [foldl existsb fst snd]. rewrite IH, getpixel_set_px.
  destruct (Z.eqb_spec a x) as [->|], (Z.eqb_spec b y) as [->|];
    cbn [andb orb]; try reflexivity.
  destruct (existsb _ l), (getpixel img (x, y)); reflexivity.
Qed.

Lemma foldl_set_size (g : Z -> Z -> Z) l : forall img,
  im_size (foldl (fun im (yx : Z * Z) => set_px im yx.2 yx.1 (g yx.2 yx.1))
             img l) = im_size img.
Proof.
  induction l as [|a l IH]; intros img; [reflexivity|].
  cbn [foldl]. rewrite IH. apply set_px_size.
Qed.

Lemma foldl_set_wf (g : Z -> Z -> Z) l : forall img,
  wf img ->
  wf (foldl (fun im (yx : Z * Z) => set_px im yx.2 yx.1 (g yx.2 yx.1)) img l).
Proof.
  induction l as [|a l IH]; intros img Hwf; [assumption|].
  cbn [foldl]. apply IH, set_px_wf, Hwf.
Qed.

(** The two loops of [create_gradient] store one value per pixel. *)
Lemma create_gradient_fold W H' d :
  0 <= W <= max_width -> 0 <= H' < 2 ^ 31 ->
  create_gradient W H' d =
  Ok (foldl (fun im (yx : Z * Z) =>
               set_px im yx.2 yx.1 (gradient_quot W H' d yx.2 yx.1))
        (mkImage (W, H')
           (replicate (Z.to_nat H') (replicate (Z.to_nat W) (clip8 0))))
        (list_prod (Py.range H') (Py.range W))).
Proof.
  intros HW HH. unfold create_gradient.
  rewrite Image_new_ok by lia. cbn [mbind result_bind].
  set (blank := mkImage _ _).
  set (P := fun im : Image => im_size im = (W, H')).
  set (store := fun (y x : Z) (s : Image) =>
                  Ok (set_px s x y (gradient_quot W H' d x y))).
  assert (forall y x s s', P s -> store y x s = Ok s' -> P s') as Hstore.
  { intros y x s s' Hs [= <-]. unfold P. rewrite set_px_size. exact Hs. }
  transitivity (for_ (Py.range H') (fun y s => for_ (Py.range W) (store y) s) blank).
  { apply (for_ext_inv P); [reflexivity| |].
    - intros y s Hy%In_range Hs.
      apply (for_ext_inv P); [assumption| |].
      + intros x s' Hx%In_range Hs'.
        change (mbind (fun value => putpixel s' (x, y) value)
                  (gradient_value W H' d x y) = store y x s').
        rewrite gradient_value_exact by lia. cbn [mbind result_bind].
        apply putpixel_inside. unfold inside. rewrite Hs'. cbn. lia.
      + intros; eapply Hstore; eassumption.
    - intros y s s' _ Hs. apply for_inv; [assumption|].
      intros; eapply Hstore; eassumption. }
  rewrite (for_nested _ _ store).
  transitivity (for_ (list_prod (Py.range H') (Py.range W))
                  (fun yx s => Ok (set_px s yx.2 yx.1
                                     (gradient_quot W H' d yx.2 yx.1))) blank).
  { apply for_ext. intros [y x] s _. reflexivity. }
  apply for_pure.
Qed.


Lemma create_gradient_inv W H' d img :
  create_gradient W H' d = Ok img -> 0 <= W <= max_width /\ 0 <= H' < 2 ^ 31.
Proof.
  unfold create_gradient. destruct (Image_new (W, H') 0) as [im|e] eqn:E;
    [|discriminate].
  intros _. pose proof (Image_new_width _ _ _ _ E).
  apply Image_new_inv in E. lia.
Qed.

Lemma create_gradient_pixel W H' d img x y :
  create_gradient W H' d = Ok img -> 0 <= x < W -> 0 <= y < H' ->
  getpixel img (x, y) = Some (gradient_quot W H' d x y).
Proof.
  intros Hrun Hx Hy.
  destruct (create_gradient_inv _ _ _ _ Hrun) as [HW HH].
  rewrite create_gradient_fold in Hrun by assumption.
  apply Ok_inj in Hrun. subst img.
  rewrite getpixel_foldl_set, getpixel_blank by lia.
  assert (existsb (fun yx : Z * Z => (yx.2 =? x) && (yx.1 =? y))
            (list_prod (Py.range H') (Py.range W)) = true) as ->.
  { apply existsb_exists. exists (y, x). split.
    - apply in_prod_iff. split; apply In_range; lia.
    - cbn. rewrite !Z.eqb_refl. reflexivity. }
  cbn. f_equal. pose proof (gradient_quot_range W H' d x y Hx Hy).
  unfold clip8. lia.
Qed.

Lemma Qfloor_scaled n d :
  0 <= n -> 0 < d ->
  Qtruncate (Qmult (Qdiv (inject_Z n) (inject_Z d)) (inject_Z 255)) = 255 * n / d.
Proof.
  intros Hn Hd. destruct d as [|p|p]; try lia.
  unfold Qtruncate, Qle_bool, Qdiv, Qmult, Qinv, inject_Z, Qfloor. cbn [Qnum Qden].
  replace (0 * Zpos (1 * p * 1) <=? n * 1 * 255 * 1) with true
    by (symmetry; apply Z.leb_le; lia).
  f_equal; lia.
Qed.


Lemma create_checkerboard_inv size sq img :
  create_checkerboard size sq = Ok img -> 0 <= size <= max_width.
Proof.
  unfold create_checkerboard.
  destruct (Image_new (size, size) 255) as [im|e] eqn:E; [|discriminate].
  intros _. pose proof (Image_new_width _ _ _ _ E).
  apply Image_new_inv in E. lia.
Qed.

Lemma create_checkerboard_pixel size sq img px py :
  0 < sq -> create_checkerboard size sq = Ok img ->
  0 <= px < size -> 0 <= py < size ->
  getpixel img (px, py) =
  Some (if (px / sq + py / sq) mod 2 =? 0 then 0 else 255).
Proof.
  intros Hsq Hrun Hpx Hpy.
  pose proof (create_checkerboard_inv _ _ _ Hrun) as Hsize.
  rewrite create_checkerboard_fold in Hrun by assumption.
  apply Ok_inj in Hrun. subst img.
  rewrite (getpixel_foldl_fill
             (fun yx : Z * Z => (yx.2 / sq + yx.1 / sq) mod 2 =? 0)
             (fun yx : Z * Z => (yx.2, yx.1, yx.2 + sq - 1, yx.1 + sq - 1))).
  rewrite checker_cover, getpixel_blank by lia.
  destruct (_ =? 0); reflexivity.
Qed.

Lemma gradient_quot_axis a W H' x y :
  0 <= x < W -> 0 <= y < H' ->
  gradient_quot W H' (axis_name a) x y = ramp_intensity a W H' x y.
Proof.
  intros Hx Hy. unfold ramp_intensity, linear_ramp, gradient_quot.
  destruct a; cbn [axis_name String.eqb Ascii.eqb Bool.eqb];
    rewrite Qfloor_scaled by lia; reflexivity.
Qed.

Lemma gradient_quot_along W H' d x1 y1 x2 y2 :
  0 <= x1 < W -> 0 <= y1 < H' -> 0 <= x2 < W -> 0 <= y2 < H' ->
  along d x1 y1 <= along d x2 y2 ->
  gradient_quot W H' d x1 y1 <= gradient_quot W H' d x2 y2.
Proof.
  unfold along, gradient_quot. intros Hx1 Hy1 Hx2 Hy2.
  destruct (String.eqb d "horizontal"); [intros; apply Z.div_le_mono; lia|].
  destruct (String.eqb d "vertical"); intros; apply Z.div_le_mono; lia.
Qed.

Lemma create_gradient_wf W H' d img :
  create_gradient W H' d = Ok img -> wf img /\ im_size img = (W, H').
Proof.
  intros Hrun. destruct (create_gradient_inv _ _ _ _ Hrun) as [HW HH].
  rewrite create_gradient_fold in Hrun by assumption.
  apply Ok_inj in Hrun. subst img. split.
  - apply foldl_set_wf, blank_wf; lia.
  - rewrite foldl_set_size. reflexivity.
Qed.

(** A zero cell side raises instead of returning a checkerboard, and a
    negative one leaves the canvas white: the loops do not run. *)
Lemma create_checkerboard_zero size :
  0 <= size <= max_width -> create_checkerboard size 0 = Raise ValueError.
Proof.
  intros Hsize. unfold create_checkerboard.
  rewrite Image_new_ok by lia. reflexivity.
Qed.

Lemma create_checkerboard_negative size sq :
  0 <= size <= max_width -> sq < 0 ->
  create_checkerboard size sq = Ok (blank (size, size) 255).
Proof.
  intros Hsize Hsq. unfold create_checkerboard, Py.range3.
  rewrite Image_new_ok by lia.
  destruct (Z.eqb_spec sq 0); [lia|]. destruct (Z.ltb_spec 0 sq); [lia|].
  assert ((0 - size - sq - 1) / - sq <= 0) as Hn.
  { assert ((0 - size - sq - 1) / - sq < 1); [|lia].
    apply Z.div_lt_upper_bound; lia. }
  cbn [mbind result_bind].
  destruct ((0 - size - sq - 1) / - sq) as [|k|k]; try lia; reflexivity.
Qed.

(** ** Claims on the checkerboard and the gradient *)

(** C1. In a checkerboard of side [size] with cells of side [square_size],
    the pixel [(px, py)], which lies in the cell at grid position
    [(px // square_size, py // square_size)], is black (0) when the sum of
    the two cell indices is even and keeps the white background (255)
    otherwise.  The sides are such that every corner of a cell, the far one
    of a cell that sticks out of the canvas included, is below [2 ^ 24]:
    those are the corners Pillow paints as they are given. *)
Theorem checkerboard_cells size square_size img px py :
  0 < square_size ->
  size + square_size <= 2 ^ 24 ->
  create_checkerboard size square_size = Ok img ->
  0 <= px < size -> 0 <= py < size ->
  getpixel img (px, py) =
  Some (if (px / square_size + py / square_size) mod 2 =? 0 then 0 else 255).
Proof. intros Hsq _. apply create_checkerboard_pixel, Hsq. Qed.

(** C2. Every pixel of a gradient is the linear ramp of the chosen axis,
    scaled to [0, 255] and truncated to an integer; the float expression of
    the source evaluates to that same integer. *)
Theorem gradient_linear_ramp a width height img x y :
  create_gradient width height (axis_name a) = Ok img ->
  0 <= x < width -> 0 <= y < height ->
  getpixel img (x, y) = Some (ramp_intensity a width height x y) /\
  gradient_value width height (axis_name a) x y =
  Ok (ramp_intensity a width height x y).
Proof.
  intros Hrun Hx Hy.
  destruct (create_gradient_inv _ _ _ _ Hrun) as [HW HH].
  rewrite <- gradient_quot_axis by assumption. split.
  - apply create_gradient_pixel; assumption.
  - apply gradient_value_exact; lia.
Qed.

(** C3. The 128 by 64 horizontal gradient has 0 in its first column and 253,
    one level away from 254, in its last column, on every row. *)
Theorem gradient_128_64_columns y :
  0 <= y < 64 ->
  exists img v,
    create_gradient 128 64 "horizontal" = Ok img /\
    getpixel img (0, y) = Some 0 /\
    getpixel img (127, y) = Some v /\ v = 253 /\ Z.abs (v - 254) <= 1.
Proof.
  intros Hy.
  destruct (create_gradient 128 64 "horizontal") as [img|e] eqn:Hrun.
  - exists img, 253. split; [reflexivity|].
    rewrite !(create_gradient_pixel _ _ _ _ _ _ Hrun) by lia.
    repeat split. cbn. lia.
  - rewrite create_gradient_fold in Hrun by (cbn; lia). discriminate.
Qed.

(** C5. A gradient never decreases along its axis: a pixel further along
    the axis ([x] for horizontal, [y] for vertical, [x + y] otherwise) is at
    least as bright. *)
Theorem gradient_monotone width height direction img x1 y1 x2 y2 :
  create_gradient width height direction = Ok img ->
  0 <= x1 < width -> 0 <= y1 < height ->
  0 <= x2 < width -> 0 <= y2 < height ->
  along direction x1 y1 <= along direction x2 y2 ->
  exists v1 v2,
    getpixel img (x1, y1) = Some v1 /\ getpixel img (x2, y2) = Some v2 /\
    v1 <= v2.
Proof.
  intros Hrun Hx1 Hy1 Hx2 Hy2 Hle.
  exists (gradient_quot width height direction x1 y1),
    (gradient_quot width height direction x2 y2).
  repeat split; try (apply create_gradient_pixel; assumption).
  apply gradient_quot_along; assumption.
Qed.

(** C9. Any direction other than ['horizontal'] and ['vertical'] gives the
    diagonal gradient. *)
Theorem gradient_default_diagonal width height direction :
  direction <> "horizontal"%string -> direction <> "vertical"%string ->
  create_gradient width height direction =
  create_gradient width height "diagonal".
Proof.
  intros Hh Hv. unfold create_gradient.
  apply String.eqb_neq in Hh, Hv. rewrite Hh, Hv. reflexivity.
Qed.

(** C10. No sample of a gradient is white: every pixel lies in [0, 254],
    and so does every stored sample. *)
Theorem gradient_below_white width height direction img :
  create_gradient width height direction = Ok img ->
  (forall x y, 0 <= x < width -> 0 <= y < height ->
     exists v, getpixel img (x, y) = Some v /\ 0 <= v <= 254) /\
  Forall (Forall (fun v => 0 <= v <= 254)) (im_rows img).
Proof.
  intros Hrun.
  assert (forall x y, 0 <= x < width -> 0 <= y < height ->
            exists v, getpixel img (x, y) = Some v /\ 0 <= v <= 254) as Hpix.
  { intros x y Hx Hy. exists (gradient_quot width height direction x y).
    split; [apply create_gradient_pixel; assumption|].
    apply gradient_quot_range; assumption. }
  split; [exact Hpix|].
  destruct (create_gradient_wf _ _ _ _ Hrun) as [Hwf Hsize].
  apply Forall_lookup. intros j row Hrow.
  apply Forall_lookup. intros i v Hv.
  assert (getpixel img (Z.of_nat i, Z.of_nat j) = Some v) as Hget.
  { unfold getpixel.
    destruct (Z.leb_spec 0 (Z.of_nat i)), (Z.leb_spec 0 (Z.of_nat j)); try lia.
    cbn [andb]. rewrite !Nat2Z.id, Hrow. cbn. exact Hv. }
  assert (inside img (Z.of_nat i) (Z.of_nat j)) as [Hi Hj]
    by (apply getpixel_inside; [assumption|rewrite Hget; eexists; reflexivity]).
  rewrite Hsize in Hi, Hj. cbn in Hi, Hj.
  destruct (Hpix _ _ Hi Hj) as (v' & Hget' & Hrange). congruence.
Qed.


(** ** Sizes and totality of the generators *)

Lemma for_total {A S} (P : S -> Prop) (l : list A) (body : A -> S -> result S) s :
  P s ->
  (forall a s, In a l -> P s -> exists s', body a s = Ok s' /\ P s') ->
  exists s', for_ l body s = Ok s' /\ P s'.
Proof.
  revert s. induction l as [|a l IH]; intros s Hs Hb; cbn [for_].
  - exists s. split; [reflexivity|assumption].
  - destruct (Hb a s (or_introl eq_refl) Hs) as (s1 & -> & Hs1). cbn.
    apply IH; [assumption|]. intros; apply Hb; [right|]; assumption.
Qed.

Lemma sized_new size c img : Image_new size c = Ok img -> sized size img.
Proof.
  destruct size as [w h]. intros (Hw & Hh & ->)%Image_new_inv.
  split; [apply blank_wf; lia|reflexivity].
Qed.

Lemma Image_new_blank size c :
  0 <= size.1 <= max_width -> 0 <= size.2 < 2 ^ 31 ->
  Image_new size c = Ok (blank size c).
Proof. destruct size as [w h]. apply Image_new_ok. Qed.

Lemma sized_draw size img c : sized size img -> sized size (draw img c).
Proof.
  intros [Hwf Hsize]. split; [apply draw_wf, Hwf|].
  rewrite draw_size. exact Hsize.
Qed.

Lemma sized_buffer size img : sized size img -> is_buffer img size.
Proof.
  intros [(_ & _ & Hlen & Hrows) <-]. repeat split; assumption.
Qed.

(** Inversion of a successful bind. *)
Ltac inv_bind H :=
  cbv beta in H;
  match type of H with
  | mbind _ ?r = Ok _ =>
      let E := fresh "E" in
      destruct r eqn:E; [cbn [mbind result_bind] in H|discriminate H]
  end.

Lemma create_checkerboard_sized size sq img :
  create_checkerboard size sq = Ok img -> sized (size, size) img.
Proof.
  unfold create_checkerboard. intros Hrun.
  inv_bind Hrun. inv_bind Hrun.
  revert Hrun. apply for_inv; [eapply sized_new; eassumption|].
  intros y s s' _ Hs Hrow. cbv beta in Hrow.
  revert Hrow. apply for_inv; [assumption|].
  intros x t t' _ Ht Hcell. inv_bind Hcell. inv_bind Hcell.
  destruct (_ =? 0); apply Ok_inj in Hcell; subst t';
    [apply sized_draw|]; assumption.
Qed.

Lemma create_circle_pattern_sized size img :
  create_circle_pattern size = Ok img -> sized (size, size) img.
Proof.
  unfold create_circle_pattern. intros Hrun.
  inv_bind Hrun. inv_bind Hrun.
  revert Hrun. apply for_inv; [eapply sized_new; eassumption|].
  intros r s s' _ Hs Hbody. apply Ok_inj in Hbody. subst s'.
  apply sized_draw, Hs.
Qed.

Lemma create_test_logo_sized size img :
  create_test_logo size = Ok img -> sized (size, size) img.
Proof.
  unfold create_test_logo. intros Hrun. inv_bind Hrun.
  apply Ok_inj in Hrun. subst img.
  repeat apply sized_draw. eapply sized_new; eassumption.
Qed.

Lemma create_photo_like_sized size img :
  create_photo_like size = Ok img -> sized (size, size) img.
Proof.
  unfold create_photo_like. intros Hrun. inv_bind Hrun.
  apply Ok_inj in Hrun. subst img.
  repeat apply sized_draw. eapply sized_new; eassumption.
Qed.

Lemma create_text_image_sized s size img :
  create_text_image s size = Ok img -> sized size img.
Proof.
  unfold create_text_image. intros Hrun. inv_bind Hrun.
  destruct (textbbox _ _ _) as [[[b0 b1] b2] b3].
  apply Ok_inj in Hrun. subst img.
  apply sized_draw. eapply sized_new; eassumption.
Qed.

Lemma create_qr_code_like_sized size g img g' :
  create_qr_code_like size g = Ok (img, g') -> sized (size, size) img.
Proof.
  unfold create_qr_code_like. intros Hrun.
  inv_bind Hrun. inv_bind Hrun. inv_bind Hrun.
  match goal with p : (Image * rng)%type |- _ => destruct p as [im gm] end.
  apply Ok_inj, pair_equal_spec in Hrun. destruct Hrun as [<- <-].
  assert (sized (size, size) im) as Him.
  { revert E1.
    apply (for_inv (fun st : Image * rng => sized (size, size) st.1));
      [eapply sized_new; eassumption|].
    intros y s s' _ Hs Hrow. cbv beta in Hrow.
    revert Hrow.
    apply (for_inv (fun st : Image * rng => sized (size, size) st.1));
      [assumption|].
    intros x [t gt] t' _ Ht Hcell. cbn [fst] in Ht.
    destruct (random gt) as [u gu].
    destruct (Py.gt u Py.half); apply Ok_inj in Hcell; subst t'; cbn [fst];
      [apply sized_draw|]; assumption. }
  cbn [foldl]. repeat apply sized_draw. assumption.
Qed.

Lemma create_icon_set_sized icons :
  create_icon_set = Ok icons ->
  Forall2 (fun icon size => sized size icon.2) icons
    [(32, 16); (24, 24); (32, 32); (32, 32)].
Proof.
  unfold create_icon_set. intros Hrun.
  inv_bind Hrun. inv_bind Hrun. inv_bind Hrun.
  apply Ok_inj in Hrun. subst icons.
  repeat (constructor; [cbn [snd foldl]; repeat apply sized_draw;
                        eapply sized_new; eassumption|]).
  constructor.
Qed.


Lemma foldl_map {A B C} (f : A -> B -> A) (g : C -> B) (l : list C) : forall a,
  foldl f a (map g l) = foldl (fun a c => f a (g c)) a l.
Proof. induction l as [|c l IH]; intros a; cbn; auto. Qed.

(** The radii visited by the loop of [create_circle_pattern]. *)
Lemma create_circle_pattern_fold size :
  0 <= size <= max_width ->
  create_circle_pattern size =
  Ok (foldl draw (blank (size, size) 255)
        (map (circle (size / 2))
           (map (fun i => 5 + Z.of_nat i * 10)
              (seq 0 (Z.to_nat ((size / 2 - 5 + 10 - 1) / 10)))))).
Proof.
  intros Hsize. unfold create_circle_pattern.
  rewrite Image_new_blank, range3_pos by (cbn; lia).
  cbn [mbind result_bind]. rewrite foldl_map.
  apply (for_pure _ (fun im r => draw im (circle (size / 2) r))).
Qed.

Lemma create_text_image_fallback s size e :
  truetype "/usr/share/fonts/truetype/dejavu/DejaVuSans-Bold.ttf" 24 = Raise e ->
  create_text_image s size = render_text load_default s size.
Proof.
  intros Hfont. unfold create_text_image, render_text. rewrite Hfont.
  reflexivity.
Qed.

Lemma render_text_ok font s size :
  0 <= size.1 <= max_width -> 0 <= size.2 < 2 ^ 31 ->
  exists img, render_text font s size = Ok img.
Proof.
  intros Hw Hh. unfold render_text. rewrite Image_new_blank by assumption.
  cbn [mbind result_bind]. destruct (textbbox _ _ _) as [[[b0 b1] b2] b3].
  eexists. reflexivity.
Qed.

Lemma create_text_image_ok s size :
  0 <= size.1 <= max_width -> 0 <= size.2 < 2 ^ 31 ->
  exists img, create_text_image s size = Ok img.
Proof.
  intros Hw Hh.
  destruct (render_text_ok
              match truetype "/usr/share/fonts/truetype/dejavu/DejaVuSans-Bold.ttf" 24 with
              | Ok f => f
              | Raise _ => load_default
              end s size Hw Hh) as [img Himg].
  exists img. exact Himg.
Qed.

Lemma create_qr_code_like_ok size g :
  0 <= size <= max_width -> exists out, create_qr_code_like size g = Ok out.
Proof.
  intros Hsize. unfold create_qr_code_like.
  rewrite Image_new_blank, range3_pos by (cbn; lia).
  cbn [mbind result_bind].
  match goal with
  | |- context [for_ ?l ?body ?st] =>
      destruct (for_total (fun _ => True) l body st I) as ([im gm] & -> & _)
  end.
  - intros y st _ _. apply for_total; [exact I|].
    intros x [t gt] _ _. destruct (random gt) as [u gu].
    destruct (Py.gt u Py.half); eexists; split; reflexivity || exact I.
  - eexists. reflexivity.
Qed.

Lemma granted_inv w h :
  granted (w, h) = true -> 0 <= w <= max_width /\ 0 <= h < 2 ^ 31.
Proof.
  unfold granted. destruct (Image_new (w, h) 0) as [img|e] eqn:E; [|discriminate].
  intros _. pose proof (Image_new_width _ _ _ _ E).
  apply Image_new_inv in E. lia.
Qed.

Lemma granted_new size c img :
  Image_new size c = Ok img -> granted size = true.
Proof.
  destruct size as [w h]. intros Hrun. unfold granted.
  rewrite (Image_new_colour _ _ _ 0 _ Hrun). reflexivity.
Qed.

Lemma generate_ok d g :
  valid d = true -> exists out, generate d g = Ok out.
Proof.
  unfold valid. intros [Hsizes Hcell]%andb_true_iff.
  destruct d as [size sq|w h dir|size|size| |size|s [w h]|size];
    cbn [requested forallb] in Hsizes; cbn [generate];
    try (rewrite andb_true_r in Hsizes; apply granted_inv in Hsizes as [Hw Hh]).
  - apply andb_true_iff in Hcell as [Hsq%Z.ltb_lt _].
    rewrite create_checkerboard_fold by assumption. eexists. reflexivity.
  - rewrite create_gradient_fold by assumption. eexists. reflexivity.
  - rewrite create_circle_pattern_fold by assumption.
    eexists. reflexivity.
  - unfold create_test_logo.
    rewrite Image_new_blank by (cbn; lia). eexists. reflexivity.
  - unfold create_icon_set.
    rewrite !Image_new_blank by (cbn; lia). eexists. reflexivity.
  - unfold create_photo_like.
    rewrite Image_new_blank by (cbn; lia). eexists. reflexivity.
  - destruct (create_text_image_ok s (w, h) Hw Hh) as [img ->].
    eexists. reflexivity.
  - destruct (create_qr_code_like_ok size g Hw) as [[img g'] ->].
    eexists. reflexivity.
Qed.

(** Every call of [main] returns its images: no exception reaches the
    top level, whatever fonts are installed. *)
Lemma main_ok g : exists out, main g = Ok out.
Proof.
  unfold main.
  destruct (for_total (fun _ => True) main_calls
              (fun d '(saved, g) => '(imgs, g) ← generate d g; Ok (saved ++ imgs, g))
              ([], g) I) as (out & Hout & _); [|exists out; exact Hout].
  intros d [saved g0] Hin _.
  assert (valid d = true) as Hv.
  { assert (forallb valid main_calls = true) as Hall by reflexivity.
    rewrite forallb_forall in Hall. apply Hall, Hin. }
  destruct (generate_ok d g0 Hv) as [[imgs g1] ->].
  eexists. split; [reflexivity|exact I].
Qed.


Lemma create_circle_pattern_inv size img :
  create_circle_pattern size = Ok img -> 0 <= size <= max_width.
Proof.
  unfold create_circle_pattern. intros Hrun. inv_bind Hrun.
  pose proof (Image_new_width _ _ _ _ E).
  apply Image_new_inv in E. lia.
Qed.

Lemma generate_sized d g imgs g' :
  generate d g = Ok (imgs, g') -> Forall2 is_buffer imgs (requested d).
Proof.
  destruct d as [size sq|w h dir|size|size| |size|s size|size];
    cbn [generate requested]; intros Hrun; inv_bind Hrun.
  - apply Ok_inj, pair_equal_spec in Hrun as [<- _].
    constructor; [|constructor]. apply sized_buffer. eapply create_checkerboard_sized, E.
  - apply Ok_inj, pair_equal_spec in Hrun as [<- _].
    constructor; [|constructor]. apply sized_buffer. split; eapply create_gradient_wf, E.
  - apply Ok_inj, pair_equal_spec in Hrun as [<- _].
    constructor; [|constructor]. apply sized_buffer. eapply create_circle_pattern_sized, E.
  - apply Ok_inj, pair_equal_spec in Hrun as [<- _].
    constructor; [|constructor]. apply sized_buffer. eapply create_test_logo_sized, E.
  - apply Ok_inj, pair_equal_spec in Hrun as [<- _].
    apply create_icon_set_sized in E.
    repeat match goal with
           | H : Forall2 _ _ (_ :: _) |- _ => inversion H; clear H; subst
           | H : Forall2 _ _ [] |- _ => inversion H; clear H; subst
           end.
    cbn [map]. repeat (constructor; [apply sized_buffer; assumption|]).
    constructor.
  - apply Ok_inj, pair_equal_spec in Hrun as [<- _].
    constructor; [|constructor]. apply sized_buffer. eapply create_photo_like_sized, E.
  - apply Ok_inj, pair_equal_spec in Hrun as [<- _].
    constructor; [|constructor]. apply sized_buffer. eapply create_text_image_sized, E.
  - match goal with p : (Image * rng)%type |- _ => destruct p as [im gm] end.
    apply Ok_inj, pair_equal_spec in Hrun as [<- _].
    constructor; [|constructor]. apply sized_buffer. eapply create_qr_code_like_sized, E.
Qed.

(** ** Claims on the generators as a whole *)

(** C4. The images a call returns do not depend on the state the
    process-wide random generator is in: the noise grid reseeds it with 42
    and the other generators never read it, so two runs of the same call
    give the same buffers. *)
Theorem generate_deterministic d g1 g2 :
  buffers (generate d g1) = buffers (generate d g2).
Proof.
  destruct d; cbn [generate]; try reflexivity;
    match goal with
    | |- context [mbind _ ?r] => destruct r; reflexivity
    end.
Qed.

(** C6. Every image a call returns has the size that was asked for: as
    many rows as the height, each as long as the width. *)
Theorem generated_dimensions d g imgs g' :
  generate d g = Ok (imgs, g') -> Forall2 is_buffer imgs (requested d).
Proof. apply generate_sized. Qed.

(** C7. When the DejaVu font cannot be loaded, the text label is rendered
    with the built-in font and returned; the failure does not propagate.
    The label is drawn on the canvas that [Image.new] returned first, for a
    size it accepts: a width of at most 536870910 and a height below 2^31. *)
Theorem text_font_fallback s width height e canvas :
  truetype "/usr/share/fonts/truetype/dejavu/DejaVuSans-Bold.ttf" 24 = Raise e ->
  Image_new (width, height) 255 = Ok canvas ->
  exists img,
    create_text_image s (width, height) = Ok img /\
    render_text load_default s (width, height) = Ok img.
Proof.
  intros Hfont Hnew.
  pose proof (Image_new_width _ _ _ _ Hnew) as Hmax.
  apply Image_new_inv in Hnew as (Hw & Hh & _).
  destruct (render_text_ok load_default s (width, height)) as [img Himg];
    [cbn; lia|cbn; lia|].
  exists img. split; [|exact Himg].
  rewrite (create_text_image_fallback _ _ _ Hfont). exact Himg.
Qed.

(** C8. The concentric circles are ellipse outlines without fill, three
    pixels wide, all around [(size // 2, size // 2)], with the radii 5, 15,
    25, ... below [size // 2], drawn in that order on a white canvas. *)
Theorem circles_outlined size img :
  create_circle_pattern size = Ok img ->
  exists radii,
    img = foldl draw (blank (size, size) 255) (map (circle (size / 2)) radii) /\
    radii = map (fun i => 5 + 10 * Z.of_nat i) (seq 0 (length radii)) /\
    (forall r, In r radii <-> exists i, 0 <= i /\ r = 5 + 10 * i /\ r < size / 2).
Proof.
  intros Hrun. pose proof (create_circle_pattern_inv _ _ Hrun) as Hsize.
  rewrite create_circle_pattern_fold in Hrun by assumption.
  apply Ok_inj in Hrun. eexists. split; [symmetry; exact Hrun|]. split.
  - rewrite length_map, length_seq. apply map_ext. intros i. lia.
  - intros r. rewrite In_range3 by lia.
    split; intros (i & Hi & -> & Hlt); exists i; repeat split; lia.
Qed.

End GeneratorFacts.

(** The concrete scenario of the checkerboard, in any environment. *)
Corollary checkerboard_64_8 `{Environment} :
  exists img,
    create_checkerboard 64 8 = Ok img /\
    getpixel img (0, 0) = Some 0 /\ getpixel img (8, 0) = Some 255.
Proof.
  pose proof (create_checkerboard_fold 64 8 ltac:(lia) ltac:(lia)) as Hrun.
  eexists. split; [exact Hrun|].
  split; [apply (create_checkerboard_pixel 64 8 _ 0 0)
         |apply (create_checkerboard_pixel 64 8 _ 8 0)]; (exact Hrun || lia).
Qed.

(** * Worked instances *)

Lemma checkerboard_cells_witness :
  exists img,
    @create_checkerboard plain_env 64 8 = Ok img /\
    getpixel img (0, 0) = Some 0 /\ getpixel img (8, 0) = Some 255.
Proof.
  eexists. split; [vm_compute; reflexivity|]. split.
  - apply (@checkerboard_cells plain_env 64 8 _ 0 0);
      [lia|lia|vm_compute; reflexivity|lia|lia].
  - apply (@checkerboard_cells plain_env 64 8 _ 8 0);
      [lia|lia|vm_compute; reflexivity|lia|lia].
Defined.

Lemma gradient_linear_ramp_witness :
  exists img,
    create_gradient 4 2 "horizontal" = Ok img /\
    getpixel img (3, 1) = Some 191 /\
    gradient_value 4 2 "horizontal" 3 1 = Ok 191.
Proof.
  eexists. split; [vm_compute; reflexivity|].
  apply (gradient_linear_ramp Horizontal 4 2 _ 3 1);
    [vm_compute; reflexivity|lia|lia].
Defined.

Lemma gradient_128_64_columns_witness :
  0 <= 5 < 64 /\
  exists img v,
    create_gradient 128 64 "horizontal" = Ok img /\
    getpixel img (0, 5) = Some 0 /\
    getpixel img (127, 5) = Some v /\ v = 253 /\ Z.abs (v - 254) <= 1.
Proof. split; [lia|apply (gradient_128_64_columns 5); lia]. Defined.

Lemma gradient_monotone_witness :
  exists img v1 v2,
    create_gradient 4 2 "horizontal" = Ok img /\
    getpixel img (1, 0) = Some v1 /\ getpixel img (3, 1) = Some v2 /\ v1 <= v2.
Proof.
  eexists.
  assert (create_gradient 4 2 "horizontal" = Ok _) as Hrun
    by (vm_compute; reflexivity).
  destruct (gradient_monotone 4 2 "horizontal" _ 1 0 3 1 Hrun
              ltac:(lia) ltac:(lia) ltac:(lia) ltac:(lia) ltac:(vm_compute; discriminate))
    as (v1 & v2 & H1 & H2 & Hle).
  exists v1, v2. split; [exact Hrun|]. split; [exact H1|]. split; [exact H2|exact Hle].
Defined.

Lemma gradient_default_diagonal_witness :
  create_gradient 4 2 "diag" = create_gradient 4 2 "diagonal".
Proof.
  apply (gradient_default_diagonal 4 2 "diag"); discriminate.
Defined.

Lemma gradient_below_white_witness :
  exists img,
    create_gradient 4 2 "vertical" = Ok img /\
    Forall (Forall (fun v => 0 <= v <= 254)) (im_rows img).
Proof.
  eexists.
  assert (create_gradient 4 2 "vertical" = Ok _) as Hrun
    by (vm_compute; reflexivity).
  split; [exact Hrun|].
  apply (gradient_below_white 4 2 "vertical" _ Hrun).
Defined.

Lemma generated_dimensions_witness :
  exists imgs g',
    @generate plain_env IconSet 7 = Ok (imgs, g') /\
    Forall2 is_buffer imgs [(32, 16); (24, 24); (32, 32); (32, 32)].
Proof.
  eexists. eexists.
  assert (@generate plain_env IconSet 7 = Ok (_, _)) as Hrun
    by (vm_compute; reflexivity).
  split; [exact Hrun|].
  apply (@generated_dimensions plain_env IconSet 7 _ _ Hrun).
Defined.

Lemma text_font_fallback_witness :
  exists img,
    @create_text_image plain_env "TEST" (80, 30) = Ok img /\
    @render_text plain_env tt "TEST" (80, 30) = Ok img.
Proof.
  apply (@text_font_fallback plain_env "TEST" 80 30 OSError (blank (80, 30) 255));
    reflexivity.
Defined.

Lemma circles_outlined_witness :
  exists img radii,
    @create_circle_pattern plain_env 40 = Ok img /\
    img = foldl (@draw plain_env) (blank (40, 40) 255)
            (map (circle (40 / 2)) radii) /\
    radii = [5; 15].
Proof.
  eexists.
  assert (@create_circle_pattern plain_env 40 = Ok _) as Hrun
    by (vm_compute; reflexivity).
  destruct (@circles_outlined plain_env 40 _ Hrun) as (radii & Himg & Hradii & Hin).
  exists radii. split; [exact Hrun|]. split; [exact Himg|].
  change (40 / 2) with 20 in Hin.
  destruct radii as [|r1 [|r2 [|r3 radii]]]; cbn in Hradii.
  - exfalso. assert (In 5 []) as [] by (apply Hin; exists 0; lia).
  - exfalso. assert (In 15 [r1]) as [E|[]] by (apply Hin; exists 1; lia).
    injection Hradii as ->. discriminate E.
  - injection Hradii as -> ->. reflexivity.
  - exfalso. apply (f_equal (fun l => nth 2 l 0)) in Hradii. cbn in Hradii.
    assert (In r3 (r1 :: r2 :: r3 :: radii)) as Hr3 by (right; right; left; reflexivity).
    apply Hin in Hr3 as (i & Hi & Er & Hlt). lia.
Defined.

(** * Further properties of the generators *)

Section FurtherFacts.

Context {env : Environment}.

Import ImageFacts LoopFacts.

Lemma lookup_map {A B} (f : A -> B) (l : list A) (i : nat) :
  map f l !! i = f <$> l !! i.
Proof.
  revert i. induction l as [|a l IH]; intros [|i]; cbn; auto.
Qed.

Lemma lookup_range n (i : nat) :
  (i < Z.to_nat n)%nat -> Py.range n !! i = Some (Z.of_nat i).
Proof.
  intros Hi. unfold Py.range. rewrite lookup_map, lookup_seq_lt by assumption.
  reflexivity.
Qed.

Lemma length_range n : length (Py.range n) = Z.to_nat n.
Proof. unfold Py.range. rewrite length_map. apply length_seq. Qed.

Lemma getpixel_nat img (i j : nat) :
  getpixel img (Z.of_nat i, Z.of_nat j) = im_rows img !! j ≫= (fun row => row !! i).
Proof.
  unfold getpixel.
  destruct (Z.leb_spec 0 (Z.of_nat i)), (Z.leb_spec 0 (Z.of_nat j)); try lia.
  cbn [andb]. rewrite !Nat2Z.id. reflexivity.
Qed.

(** Two well-formed images of one size with the same pixels are equal. *)
Lemma image_ext img1 img2 :
  wf img1 -> wf img2 -> im_size img1 = im_size img2 ->
  (forall x y, inside img1 x y -> getpixel img1 (x, y) = getpixel img2 (x, y)) ->
  img1 = img2.
Proof.
  intros (Hw1 & Hh1 & Hlen1 & Hrows1) (Hw2 & Hh2 & Hlen2 & Hrows2) Hsize Hpix.
  destruct img1 as [[w h] rows1], img2 as [size2 rows2].
  cbn [im_size im_rows fst snd] in *. subst size2. cbn [fst snd] in *.
  f_equal. apply list_eq. intros j.
  destruct (decide (j < Z.to_nat h)%nat) as [Hj|Hj].
  - destruct (lookup_lt_is_Some_2 rows1 j ltac:(lia)) as [r1 E1].
    destruct (lookup_lt_is_Some_2 rows2 j ltac:(lia)) as [r2 E2].
    rewrite E1, E2. f_equal. apply list_eq. intros i.
    rewrite Forall_lookup in Hrows1, Hrows2.
    specialize (Hrows1 _ _ E1). specialize (Hrows2 _ _ E2).
    destruct (decide (i < Z.to_nat w)%nat) as [Hi|Hi].
    + specialize (Hpix (Z.of_nat i) (Z.of_nat j)).
      rewrite !getpixel_nat in Hpix. cbn [im_rows] in Hpix.
      rewrite E1, E2 in Hpix. cbn in Hpix. apply Hpix.
      unfold inside. cbn. lia.
    + rewrite !lookup_ge_None_2 by lia. reflexivity.
  - rewrite !lookup_ge_None_2 by lia. reflexivity.
Qed.

(** A table of [f x y] is a well-formed image with those pixels. *)
Lemma table_wf (f : Z -> Z -> Z) w h :
  0 <= w -> 0 <= h ->
  wf (mkImage (w, h) (map (fun y => map (fun x => f x y) (Py.range w)) (Py.range h))).
Proof.
  intros Hw Hh. repeat split; cbn [im_size im_rows fst snd]; try assumption.
  - rewrite length_map. apply length_range.
  - apply Forall_forall. intros row (y & <- & _)%list_elem_of_In%in_map_iff.
    rewrite length_map. apply length_range.
Qed.

Lemma getpixel_table (f : Z -> Z -> Z) w h x y :
  0 <= x < w -> 0 <= y < h ->
  getpixel (mkImage (w, h) (map (fun y => map (fun x => f x y) (Py.range w))
                              (Py.range h))) (x, y) = Some (f x y).
Proof.
  intros Hx Hy. rewrite <- (Z2Nat.id x), <- (Z2Nat.id y) at 1 by lia.
  rewrite getpixel_nat. cbn [im_rows].
  rewrite lookup_map, lookup_range by lia. cbn.
  rewrite lookup_map, lookup_range by lia. cbn.
  rewrite !Z2Nat.id by lia. reflexivity.
Qed.

(** Every stored sample is the pixel at its position. *)
Lemma Forall_samples (P : Z -> Prop) img :
  wf img ->
  (forall x y v, inside img x y -> getpixel img (x, y) = Some v -> P v) ->
  Forall (Forall P) (im_rows img).
Proof.
  intros Hwf Hpix. apply Forall_lookup. intros j row Hrow.
  apply Forall_lookup. intros i v Hv.
  assert (getpixel img (Z.of_nat i, Z.of_nat j) = Some v) as Hget.
  { rewrite getpixel_nat, Hrow. exact Hv. }
  apply (Hpix (Z.of_nat i) (Z.of_nat j)); [|exact Hget].
  apply getpixel_inside; [assumption|]. rewrite Hget. eexists. reflexivity.
Qed.

(** X1. Whenever [Image.new] returns the canvas, an empty one included,
    [create_gradient] returns the table of the integer quotients
    [255 * a // D]: no division by zero, no index out of range, and no float
    is needed to compute it. *)
Theorem create_gradient_table width height direction canvas :
  Image_new (width, height) 0 = Ok canvas ->
  create_gradient width height direction =
  Ok (mkImage (width, height) (gradient_table width height direction)).
Proof.
  intros Hnew. pose proof (Image_new_width _ _ _ _ Hnew) as Hmax.
  apply Image_new_inv in Hnew as (Hw' & Hh & _).
  assert (0 <= width <= max_width) as Hw by lia.
  pose proof (create_gradient_fold width height direction Hw Hh) as Hrun.
  rewrite Hrun. f_equal. apply image_ext.
  - apply foldl_set_wf, blank_wf; lia.
  - apply table_wf; lia.
  - rewrite foldl_set_size. reflexivity.
  - intros x y [Hx Hy]. rewrite foldl_set_size in Hx, Hy. cbn in Hx, Hy.
    rewrite (create_gradient_pixel _ _ _ _ _ _ Hrun) by assumption.
    unfold gradient_table.
    rewrite (getpixel_table (gradient_quot width height direction)) by assumption.
    reflexivity.
Qed.


Lemma gradient_quot_eq W H' d x y :
  gradient_quot W H' d x y = 255 * along d x y / extent d W H'.
Proof.
  unfold gradient_quot, along, extent.
  destruct (String.eqb d "horizontal"); [reflexivity|].
  destruct (String.eqb d "vertical"); reflexivity.
Qed.

Lemma extent_pos d W H' : 0 < W -> 0 < H' -> 0 < extent d W H'.
Proof.
  intros HW HH. unfold extent.
  destruct (String.eqb d "horizontal"); [assumption|].
  destruct (String.eqb d "vertical"); lia.
Qed.

Lemma along_range d W H' x y :
  0 <= x < W -> 0 <= y < H' ->
  0 <= along d x y <= along d (W - 1) (H' - 1) /\
  along d (W - 1) (H' - 1) < extent d W H'.
Proof.
  intros Hx Hy. unfold along, extent.
  destruct (String.eqb d "horizontal"); [lia|].
  destruct (String.eqb d "vertical"); lia.
Qed.

Lemma top_level_iff D k :
  0 < k <= D -> 255 * (D - k) / D = 254 <-> 255 * k <= D.
Proof.
  intros Hk. split.
  - intros E. pose proof (Z.mul_div_le (255 * (D - k)) D ltac:(lia)) as Hle.
    rewrite E in Hle. lia.
  - intros Hle. symmetry.
    apply (Z.div_unique (255 * (D - k)) D 254 (D - 255 * k)); lia.
Qed.

Lemma quotient_step D a :
  0 < D -> 0 <= a ->
  0 <= 255 * (a + 1) / D - 255 * a / D <= (254 + D) / D.
Proof.
  intros HD Ha.
  pose proof (Z.div_mod (255 * a) D ltac:(lia)) as E.
  pose proof (Z.mod_pos_bound (255 * a) D HD) as Hr.
  replace (255 * (a + 1)) with ((255 * a / D) * D + ((255 * a) mod D + 255)) by lia.
  rewrite Z.div_add_l by lia.
  assert (0 <= ((255 * a) mod D + 255) / D) by (apply Z.div_pos; lia).
  assert (((255 * a) mod D + 255) / D <= (254 + D) / D)
    by (apply Z.div_le_mono; lia).
  lia.
Qed.

(** X2. In a gradient the top-left pixel is black and the bottom-right one
    is the brightest; it is never above 254, and it reaches 254 exactly when
    the image spans at least 255 pixels along the axis (510 for width plus
    height on the diagonal). *)
Theorem gradient_extremes width height direction img :
  create_gradient width height direction = Ok img ->
  0 < width -> 0 < height ->
  getpixel img (0, 0) = Some 0 /\
  exists v,
    getpixel img (width - 1, height - 1) = Some v /\
    v <= 254 /\
    (forall x y, 0 <= x < width -> 0 <= y < height ->
       exists u, getpixel img (x, y) = Some u /\ 0 <= u <= v) /\
    (v = 254 <->
     if String.eqb direction "horizontal" then 255 <= width
     else if String.eqb direction "vertical" then 255 <= height
     else 510 <= width + height).
Proof.
  intros Hrun HW HH. split.
  - rewrite (create_gradient_pixel _ _ _ _ _ _ Hrun) by lia.
    rewrite gradient_quot_eq. f_equal.
    destruct (along_range direction width height 0 0 ltac:(lia) ltac:(lia))
      as [Hlo _].
    assert (along direction 0 0 = 0) as ->.
    { unfold along. destruct (String.eqb _ _); [reflexivity|].
      destruct (String.eqb _ _); reflexivity. }
    reflexivity.
  - exists (gradient_quot width height direction (width - 1) (height - 1)).
    split; [apply create_gradient_pixel; (assumption || lia)|].
    split; [apply gradient_quot_range; lia|]. split.
    + intros x y Hx Hy. exists (gradient_quot width height direction x y).
      split; [apply create_gradient_pixel; assumption|]. split.
      * apply gradient_quot_range; assumption.
      * apply gradient_quot_along; try lia.
        apply (along_range direction width height x y); assumption.
    + unfold gradient_quot.
      destruct (String.eqb direction "horizontal").
      { rewrite <- (top_level_iff width 1) by lia. reflexivity. }
      destruct (String.eqb direction "vertical").
      { rewrite <- (top_level_iff height 1) by lia. reflexivity. }
      replace (width - 1 + (height - 1)) with (width + height - 2) by lia.
      rewrite (top_level_iff (width + height) 2) by lia. lia.
Qed.

(** X3. One step along the axis raises the intensity by at most
    [ceil(255 / D)], hence by at most one level once the image spans 255
    pixels along the axis. *)
Theorem gradient_step width height direction img x1 y1 x2 y2 :
  create_gradient width height direction = Ok img ->
  0 <= x1 < width -> 0 <= y1 < height ->
  0 <= x2 < width -> 0 <= y2 < height ->
  along direction x2 y2 = along direction x1 y1 + 1 ->
  exists v1 v2,
    getpixel img (x1, y1) = Some v1 /\ getpixel img (x2, y2) = Some v2 /\
    0 <= v2 - v1 <= (254 + extent direction width height)
                    / extent direction width height /\
    (255 <= extent direction width height -> v2 - v1 <= 1).
Proof.
  intros Hrun Hx1 Hy1 Hx2 Hy2 Hstep.
  exists (gradient_quot width height direction x1 y1),
    (gradient_quot width height direction x2 y2).
  split; [apply create_gradient_pixel; assumption|].
  split; [apply create_gradient_pixel; assumption|].
  rewrite !gradient_quot_eq, Hstep.
  pose proof (extent_pos direction width height ltac:(lia) ltac:(lia)) as HD.
  destruct (along_range direction width height x1 y1 Hx1 Hy1) as [[Ha _] _].
  pose proof (quotient_step (extent direction width height)
                (along direction x1 y1) HD Ha) as Hq.
  split; [exact Hq|]. intros Hwide.
  assert ((254 + extent direction width height) / extent direction width height < 2)
    by (apply Z.div_lt_upper_bound; lia).
  lia.
Qed.

(** X4. Rounding never shows: for every numerator below a denominator of
    at most 2^45, the binary64 expression [int((n / d) * 255)] returns the
    integer quotient [255 * n // d], a value between 0 and 254. *)
Theorem ramp_integer_quotient n d :
  0 <= n < d -> d <= 2 ^ 45 ->
  ramp n d = Ok (255 * n / d) /\ 0 <= 255 * n / d <= 254.
Proof.
  intros Hn Hd. split; [apply RoundFacts.ramp_exact; assumption|].
  split; [apply Z.div_pos; lia|].
  assert (255 * n / d < 255); [|lia]. apply Z.div_lt_upper_bound; lia.
Qed.

(** ** Checkerboard *)

Lemma odd_flip a : ((a + 1) mod 2 =? 0) = negb (a mod 2 =? 0).
Proof.
  pose proof (Z.mod_pos_bound a 2 ltac:(lia)).
  pose proof (Z.mod_pos_bound (a + 1) 2 ltac:(lia)).
  pose proof (Z.div_mod a 2 ltac:(lia)).
  pose proof (Z.div_mod (a + 1) 2 ltac:(lia)).
  destruct (Z.eqb_spec ((a + 1) mod 2) 0), (Z.eqb_spec (a mod 2) 0);
    cbn; lia.
Qed.

(** X5. On the canvas that [Image.new] returned, a cell side of zero raises
    [ValueError] (from [range], before any floor division by zero); a
    negative one runs no loop and returns the canvas as it is, white. *)
Theorem checkerboard_degenerate size square_size canvas :
  Image_new (size, size) 255 = Ok canvas -> square_size <= 0 ->
  create_checkerboard size square_size =
  if square_size =? 0 then Raise ValueError else Ok canvas.
Proof.
  intros Hnew Hsq. pose proof (Image_new_width _ _ _ _ Hnew) as Hmax.
  apply Image_new_inv in Hnew as (Hsize & _ & ->).
  destruct (Z.eqb_spec square_size 0) as [->|Hne].
  - apply create_checkerboard_zero; lia.
  - apply create_checkerboard_negative; lia.
Qed.

(** X6. Moving by one cell side, to the right or down, inverts the colour
    of a checkerboard pixel. *)
Theorem checkerboard_shift size square_size img px py :
  0 < square_size ->
  create_checkerboard size square_size = Ok img ->
  0 <= px < size -> 0 <= py < size ->
  exists v,
    getpixel img (px, py) = Some v /\
    (px + square_size < size ->
     getpixel img (px + square_size, py) = Some (255 - v)) /\
    (py + square_size < size ->
     getpixel img (px, py + square_size) = Some (255 - v)).
Proof.
  intros Hsq Hrun Hpx Hpy. eexists. split.
  - apply (create_checkerboard_pixel _ _ _ _ _ Hsq Hrun Hpx Hpy).
  - split; intros Hin;
      rewrite (create_checkerboard_pixel _ _ _ _ _ Hsq Hrun) by lia.
    + replace (px + square_size) with (px + 1 * square_size) by lia.
      rewrite Z.div_add by lia.
      replace (px / square_size + 1 + py / square_size)
        with (px / square_size + py / square_size + 1) by lia.
      rewrite odd_flip. destruct (_ =? 0); reflexivity.
    + replace (py + square_size) with (py + 1 * square_size) by lia.
      rewrite Z.div_add by lia.
      replace (px / square_size + (py / square_size + 1))
        with (px / square_size + py / square_size + 1) by lia.
      rewrite odd_flip. destruct (_ =? 0); reflexivity.
Qed.

(** X7. A checkerboard is symmetric about its main diagonal. *)
Theorem checkerboard_transpose size square_size img px py :
  0 < square_size ->
  create_checkerboard size square_size = Ok img ->
  0 <= px < size -> 0 <= py < size ->
  getpixel img (px, py) = getpixel img (py, px).
Proof.
  intros Hsq Hrun Hpx Hpy.
  rewrite !(create_checkerboard_pixel _ _ _ _ _ Hsq Hrun) by assumption.
  rewrite Z.add_comm. reflexivity.
Qed.

(** X8. Whatever the cell side, a checkerboard holds only the two samples 0
    and 255. *)
Theorem checkerboard_two_tone size square_size img :
  create_checkerboard size square_size = Ok img ->
  Forall (Forall (fun v => v = 0 \/ v = 255)) (im_rows img).
Proof.
  intros Hrun.
  pose proof (create_checkerboard_inv _ _ _ Hrun) as Hsize.
  destruct (create_checkerboard_sized _ _ _ Hrun) as [Hwf Hdim].
  apply Forall_samples; [assumption|].
  intros x y v [Hx Hy] Hget. rewrite Hdim in Hx, Hy. cbn in Hx, Hy.
  destruct (Z.lt_trichotomy square_size 0) as [Hneg|[Hz|Hpos]].
  - rewrite create_checkerboard_negative in Hrun by assumption.
    apply Ok_inj in Hrun. subst img. unfold blank in Hget. cbn [fst snd] in Hget.
    rewrite getpixel_blank in Hget by assumption.
    right. injection Hget as <-. reflexivity.
  - subst square_size. rewrite create_checkerboard_zero in Hrun by assumption.
    discriminate Hrun.
  - rewrite (create_checkerboard_pixel _ _ _ _ _ Hpos Hrun Hx Hy) in Hget.
    destruct (_ =? 0); injection Hget as <-; auto.
Qed.

(** X9. A cell side that is at least the canvas side, and at most [2 ^ 24]
    so that Pillow paints the far corner of the cell as it is given, gives
    a single black cell: the whole image is black. *)
Theorem checkerboard_single_cell size square_size img :
  0 < square_size <= 2 ^ 24 -> size <= square_size ->
  create_checkerboard size square_size = Ok img ->
  img = blank (size, size) 0.
Proof.
  intros [Hsq _] Hle Hrun.
  pose proof (create_checkerboard_inv _ _ _ Hrun) as Hsize.
  destruct (create_checkerboard_sized _ _ _ Hrun) as [Hwf Hdim].
  apply image_ext;
    [assumption|unfold blank; cbn [fst snd]; apply blank_wf; lia|exact Hdim|].
  intros x y [Hx Hy]. rewrite Hdim in Hx, Hy. cbn in Hx, Hy.
  rewrite (create_checkerboard_pixel _ _ _ _ _ Hsq Hrun Hx Hy).
  unfold blank. cbn [fst snd]. rewrite getpixel_blank by assumption.
  rewrite !Z.div_small by lia. reflexivity.
Qed.


(** ** Circles, photo-like scene, noise grid and driver *)

Ltac inv_run H :=
  cbv beta in H;
  match type of H with
  | mbind _ ?r = Ok _ =>
      let E := fresh "E" in
      destruct r eqn:E; [cbn [mbind result_bind] in H|discriminate H]
  end.

Lemma In_circle_radii size r :
  In r (circle_radii size) <-> exists i, 0 <= i /\ r = 5 + i * 10 /\ r < size / 2.
Proof. unfold circle_radii. apply In_range3. lia. Qed.

(** X10. On a canvas of side at most 11 no radius fits below the centre:
    the pattern is the untouched white canvas, whatever the rasteriser. *)
Theorem circles_none size :
  0 <= size <= 11 ->
  create_circle_pattern size = Ok (blank (size, size) 255).
Proof.
  assert (11 < 2 ^ 31) by reflexivity.
  intros Hsize. rewrite create_circle_pattern_fold by lia.
  assert (size / 2 < 6) by (apply Z.div_lt_upper_bound; lia).
  assert (0 <= size / 2) by (apply Z.div_pos; lia).
  assert ((size / 2 - 5 + 10 - 1) / 10 = 0) as ->
    by (apply Z.div_small; lia).
  reflexivity.
Qed.

(** X11. On the canvas that [Image.new] returned, the circles are drawn
    for [(size // 2 + 4) // 10] radii, and the bounding box of each lies
    strictly inside the canvas: no circle is clipped. *)
Theorem circles_inside_canvas size canvas :
  Image_new (size, size) 255 = Ok canvas ->
  create_circle_pattern size =
  Ok (foldl draw canvas (map (circle (size / 2)) (circle_radii size))) /\
  length (circle_radii size) = Z.to_nat ((size / 2 + 4) / 10) /\
  Forall (fun r => 0 < size / 2 - r /\ size / 2 + r < size) (circle_radii size).
Proof.
  intros Hnew. pose proof (Image_new_width _ _ _ _ Hnew) as Hmax.
  apply Image_new_inv in Hnew as (Hsize & _ & ->).
  split; [apply create_circle_pattern_fold; lia|]. split.
  - unfold circle_radii. rewrite length_map, length_seq.
    do 2 f_equal. lia.
  - apply Forall_forall. intros r (i & Hi & -> & Hlt)%list_elem_of_In%In_circle_radii.
    pose proof (Z.mul_div_le size 2 ltac:(lia)). lia.
Qed.

(** X12. The two windows of the photo-like scene are painted last: every
    canvas pixel inside one of their rectangles has the tone 150, whatever
    the roof polygon wrote below. *)
Theorem photo_windows_on_top size img x y :
  create_photo_like size = Ok img ->
  0 <= x < size -> 0 <= y < size ->
  in_box (window_boxes size).1 x y || in_box (window_boxes size).2 x y = true ->
  getpixel img (x, y) = Some 150.
Proof.
  intros Hrun Hx Hy Hin. unfold create_photo_like in Hrun. inv_run Hrun.
  apply Ok_inj in Hrun. subst img.
  match goal with
  | |- getpixel (draw (draw ?base _) _) _ = _ =>
      assert (sized (size, size) base) as [Hwf Hdim]
        by (repeat apply sized_draw; eapply sized_new; eassumption);
      assert (is_Some (getpixel base (x, y))) as [u Hu]
        by (apply getpixel_inside; [assumption|];
            unfold inside; rewrite Hdim; cbn; lia);
      set (b := base) in *
  end.
  cbn [draw]. rewrite !getpixel_fill_box, Hu.
  unfold window_boxes in Hin. cbn [fst snd in_box] in Hin.
  match type of Hin with
  | ?c1 || ?c2 = true => destruct c1, c2
  end; try reflexivity. discriminate Hin.
Qed.

Lemma spin_add n m g : spin (n + m) g = spin m (spin n g).
Proof. revert g. induction n as [|n IH]; intros g; cbn; auto. Qed.

Lemma for_spin {A} (k : nat) (l : list A)
      (body : A -> Image * rng -> result (Image * rng)) :
  (forall a s s', body a s = Ok s' -> s'.2 = spin k s.2) ->
  forall s s', for_ l body s = Ok s' -> s'.2 = spin (length l * k) s.2.
Proof.
  intros Hbody. induction l as [|a l IH]; intros s s' Hrun; cbn [for_] in Hrun.
  - apply Ok_inj in Hrun. subst s'. reflexivity.
  - destruct (body a s) as [s1|e] eqn:E; [|discriminate Hrun].
    cbn [mbind result_bind] in Hrun.
    cbn [length Nat.mul]. rewrite spin_add, <- (Hbody _ _ _ E).
    apply IH, Hrun.
Qed.

Lemma create_qr_code_like_state size g img g' :
  create_qr_code_like size g = Ok (img, g') ->
  g' = spin (qr_cells size * qr_cells size) (seed 42).
Proof.
  unfold create_qr_code_like. intros Hrun.
  inv_run Hrun. inv_run Hrun. inv_run Hrun.
  match goal with p : (Image * rng)%type |- _ => destruct p as [im gm] end.
  apply Ok_inj, pair_equal_spec in Hrun. destruct Hrun as [_ <-].
  rewrite range3_pos in E0 by lia. apply Ok_inj in E0.
  assert (length a0 = qr_cells size) as Hlen.
  { subst a0. rewrite length_map, length_seq. reflexivity. }
  rewrite <- Hlen.
  apply (for_spin (length a0)) in E1; [exact E1|].
  intros y s s' Hrow. rewrite <- (Nat.mul_1_r (length a0)).
  revert Hrow. apply for_spin.
  intros x [t gt] t' Hcell. cbn [snd spin].
  destruct (random gt) as [u gu]. cbn [snd].
  destruct (Py.gt u Py.half); apply Ok_inj in Hcell; subst t'; reflexivity.
Qed.

(** X13. The noise grid reseeds the process-wide generator with 42 and
    draws one number per cell, [ceil(size / 4)] squared in all: the state it
    leaves behind is the one after that many draws, whatever the state it
    found. *)
Theorem qr_random_draws size g img g' :
  create_qr_code_like size g = Ok (img, g') ->
  g' = spin (qr_cells size * qr_cells size) (seed 42) /\
  Z.of_nat (qr_cells size) = (size + 3) / 4.
Proof.
  intros Hrun. split; [eapply create_qr_code_like_state, Hrun|].
  apply create_qr_code_like_sized in Hrun as [(Hw & _) Hdim].
  rewrite Hdim in Hw. cbn in Hw. unfold qr_cells.
  replace (size - 0 + 4 - 1) with (size + 3) by lia.
  apply Z2Nat.id, Z.div_pos; lia.
Qed.

Lemma generate_state d g imgs g' :
  generate d g = Ok (imgs, g') -> g' = state_after d g.
Proof.
  destruct d; cbn [generate state_after]; intros Hrun; inv_run Hrun;
    try (apply Ok_inj, pair_equal_spec in Hrun as [_ <-]; reflexivity).
  match goal with p : (Image * rng)%type |- _ => destruct p as [im gm] end.
  apply Ok_inj, pair_equal_spec in Hrun as [_ <-].
  eapply create_qr_code_like_state, E.
Qed.

Lemma generate_effect d g :
  valid d = true ->
  exists imgs,
    generate d g = Ok (imgs, state_after d g) /\
    length imgs = length (requested d).
Proof.
  intros Hv. destruct (generate_ok d g Hv) as [[imgs g'] Hrun].
  exists imgs. rewrite (generate_state _ _ _ _ Hrun) in Hrun.
  split; [exact Hrun|].
  apply generate_sized in Hrun. eapply Forall2_length, Hrun.
Qed.

Lemma main_loop l :
  forallb valid l = true ->
  forall saved g,
  exists imgs,
    for_ l (fun d '(saved, g) => '(imgs, g) ← generate d g; Ok (saved ++ imgs, g))
      (saved, g) =
    Ok (saved ++ imgs, foldl (fun g d => state_after d g) g l) /\
    length imgs = length (concat (map requested l)).
Proof.
  induction l as [|d l IH]; intros Hall saved g.
  - exists []. rewrite app_nil_r. split; reflexivity.
  - cbn [forallb] in Hall. apply andb_true_iff in Hall as [Hv Hall].
    destruct (generate_effect d g Hv) as (imgs & Hrun & Hlen).
    destruct (IH Hall (saved ++ imgs) (state_after d g)) as (rest & Hrest & Hlen').
    exists (imgs ++ rest). cbn [for_ foldl map concat].
    rewrite Hrun. cbn [mbind result_bind]. rewrite Hrest, app_assoc.
    split; [reflexivity|]. rewrite !length_app. lia.
Qed.

(** X14. Every generation call of [main] returns, in any environment: 26
    images in all, and the process-wide generator is left in the state
    reached 256 draws after seed 42, whatever its state before. *)
Theorem main_images g :
  exists imgs,
    main g = Ok (imgs, spin 256 (seed 42)) /\ length imgs = 26%nat.
Proof.
  destruct (main_loop main_calls eq_refl [] g) as (imgs & Hrun & Hlen).
  exists imgs. split; [exact Hrun|exact Hlen].
Qed.

(** X15. Each generator returns its images whenever [Image.new] returns the
    canvases it asks for (and, for the checkerboard, the cell side is
    positive and the cell corners are below [2 ^ 24]), whether or not the
    font file is there: no division by zero, no pixel index out of range,
    and only the noise grid touches the random generator. *)
Theorem generators_return d g :
  valid d = true ->
  exists imgs, generate d g = Ok (imgs, state_after d g).
Proof.
  intros Hv. destruct (generate_effect d g Hv) as (imgs & Hrun & _).
  exists imgs. exact Hrun.
Qed.

End FurtherFacts.

(** * Worked instances of the further properties *)

Lemma create_gradient_table_witness :
  create_gradient 3 2 "diagonal" =
  Ok (mkImage (3, 2) [[0; 51; 102]; [51; 102; 153]]) /\
  create_gradient 0 2 "horizontal" = Ok (mkImage (0, 2) [[]; []]).
Proof.
  split.
  - apply (create_gradient_table 3 2 "diagonal" (blank (3, 2) 0)). reflexivity.
  - apply (create_gradient_table 0 2 "horizontal" (blank (0, 2) 0)). reflexivity.
Defined.

Lemma gradient_extremes_witness :
  exists img,
    create_gradient 255 1 "horizontal" = Ok img /\
    getpixel img (0, 0) = Some 0 /\ getpixel img (254, 0) = Some 254.
Proof.
  eexists.
  assert (create_gradient 255 1 "horizontal" = Ok _) as Hrun
    by (vm_compute; reflexivity).
  destruct (gradient_extremes 255 1 "horizontal" _ Hrun ltac:(lia) ltac:(lia))
    as (Hzero & v & Hv & _ & Hiff).
  split; [exact Hrun|]. split; [exact Hzero|].
  assert (v = 254) as Ev by (apply Hiff; cbn; lia).
  rewrite Ev in Hv. exact Hv.
Defined.

Lemma gradient_step_witness :
  exists img v1 v2,
    create_gradient 4 2 "horizontal" = Ok img /\
    getpixel img (1, 0) = Some v1 /\ getpixel img (2, 1) = Some v2 /\
    0 <= v2 - v1 <= 64.
Proof.
  eexists.
  assert (create_gradient 4 2 "horizontal" = Ok _) as Hrun
    by (vm_compute; reflexivity).
  destruct (gradient_step 4 2 "horizontal" _ 1 0 2 1 Hrun
              ltac:(lia) ltac:(lia) ltac:(lia) ltac:(lia) eq_refl)
    as (v1 & v2 & H1 & H2 & Hstep & _).
  exists v1, v2. split; [exact Hrun|]. split; [exact H1|]. split; [exact H2|].
  exact Hstep.
Defined.

Lemma ramp_integer_quotient_witness :
  ramp 127 128 = Ok 253 /\ 0 <= 253 <= 254.
Proof.
  apply (ramp_integer_quotient 127 128); [lia|discriminate].
Defined.

Lemma checkerboard_degenerate_witness :
  @create_checkerboard plain_env 5 0 = Raise ValueError /\
  @create_checkerboard plain_env 2 (-3) =
  Ok (mkImage (2, 2) [[255; 255]; [255; 255]]).
Proof.
  split.
  - apply (@checkerboard_degenerate plain_env 5 0 (blank (5, 5) 255));
      [reflexivity|lia].
  - apply (@checkerboard_degenerate plain_env 2 (-3) (blank (2, 2) 255));
      [reflexivity|lia].
Defined.

Lemma checkerboard_shift_witness :
  exists img v,
    @create_checkerboard plain_env 4 2 = Ok img /\
    getpixel img (1, 0) = Some v /\
    getpixel img (3, 0) = Some (255 - v) /\
    getpixel img (1, 2) = Some (255 - v).
Proof.
  eexists.
  assert (@create_checkerboard plain_env 4 2 = Ok _) as Hrun
    by (vm_compute; reflexivity).
  destruct (@checkerboard_shift plain_env 4 2 _ 1 0 ltac:(lia) Hrun
              ltac:(lia) ltac:(lia)) as (v & Hv & Hright & Hdown).
  exists v. split; [exact Hrun|]. split; [exact Hv|].
  split; [apply Hright|apply Hdown]; lia.
Defined.

Lemma checkerboard_transpose_witness :
  exists img,
    @create_checkerboard plain_env 5 2 = Ok img /\
    getpixel img (1, 4) = getpixel img (4, 1).
Proof.
  eexists.
  assert (@create_checkerboard plain_env 5 2 = Ok _) as Hrun
    by (vm_compute; reflexivity).
  split; [exact Hrun|].
  apply (@checkerboard_transpose plain_env 5 2 _ 1 4 ltac:(lia) Hrun); lia.
Defined.

Lemma checkerboard_two_tone_witness :
  exists img,
    @create_checkerboard plain_env 5 2 = Ok img /\
    Forall (Forall (fun v => v = 0 \/ v = 255)) (im_rows img).
Proof.
  eexists.
  assert (@create_checkerboard plain_env 5 2 = Ok _) as Hrun
    by (vm_compute; reflexivity).
  split; [exact Hrun|]. apply (@checkerboard_two_tone plain_env 5 2 _ Hrun).
Defined.

Lemma checkerboard_single_cell_witness :
  @create_checkerboard plain_env 3 8 =
  Ok (mkImage (3, 3) [[0; 0; 0]; [0; 0; 0]; [0; 0; 0]]).
Proof.
  assert (exists img, @create_checkerboard plain_env 3 8 = Ok img) as [img Hrun]
    by (eexists; vm_compute; reflexivity).
  rewrite Hrun. f_equal.
  apply (@checkerboard_single_cell plain_env 3 8 img); [lia|lia|exact Hrun].
Defined.

Lemma circles_none_witness :
  @create_circle_pattern plain_env 2 = Ok (mkImage (2, 2) [[255; 255]; [255; 255]]).
Proof. apply (@circles_none plain_env 2). lia. Defined.

Lemma circles_inside_canvas_witness :
  circle_radii 100 = [5; 15; 25; 35; 45] /\
  @create_circle_pattern plain_env 100 =
  Ok (foldl (@draw plain_env) (blank (100, 100) 255)
        (map (circle (100 / 2)) (circle_radii 100))) /\
  length (circle_radii 100) = 5%nat /\
  Forall (fun r => 0 < 100 / 2 - r /\ 100 / 2 + r < 100) (circle_radii 100).
Proof.
  split; [reflexivity|].
  apply (@circles_inside_canvas plain_env 100 (blank (100, 100) 255)).
  reflexivity.
Defined.

Lemma photo_windows_on_top_witness :
  exists img,
    @create_photo_like plain_env 150 = Ok img /\
    getpixel img (65, 60) = Some 150 /\ getpixel img (85, 62) = Some 150.
Proof.
  eexists.
  assert (@create_photo_like plain_env 150 = Ok _) as Hrun
    by (vm_compute; reflexivity).
  split; [exact Hrun|].
  split; apply (@photo_windows_on_top plain_env 150 _ _ _ Hrun);
    (lia || reflexivity).
Defined.

Lemma qr_random_draws_witness :
  exists img,
    @create_qr_code_like plain_env 8 7 = Ok (img, 1668674806) /\
    1668674806 = @spin plain_env 4 42.
Proof.
  eexists.
  assert (@create_qr_code_like plain_env 8 7 = Ok (_, 1668674806)) as Hrun
    by (vm_compute; reflexivity).
  split; [exact Hrun|].
  apply (@qr_random_draws plain_env 8 7 _ _ Hrun).
Defined.

Lemma generators_return_witness :
  (exists imgs, @generate plain_env (TextImage "TEST" (80, 30)) 7 = Ok (imgs, 7)) /\
  (exists imgs, @generate inked_env (Checkerboard 8 3) 7 = Ok (imgs, 7)) /\
  (exists imgs, @generate inked_env (QrCodeLike 8) 7 = Ok (imgs, 1668674806)).
Proof.
  split; [|split].
  - apply (@generators_return plain_env (TextImage "TEST" (80, 30)) 7).
    reflexivity.
  - apply (@generators_return inked_env (Checkerboard 8 3) 7).
    reflexivity.
  - apply (@generators_return inked_env (QrCodeLike 8) 7).
    reflexivity.
Defined.

(** * Properties that depend on the rasteriser's footprint *)

Section FootprintFacts.

Context {env : Environment}.

Import ImageFacts LoopFacts.

Ltac inv_run H :=
  cbv beta in H;
  match type of H with
  | mbind _ ?r = Ok _ =>
      let E := fresh "E" in
      destruct r eqn:E; [cbn [mbind result_bind] in H|discriminate H]
  end.

Lemma getpixel_foldl_writes (l : list (Z * Z * Z)) x y : forall img,
  (forall v, ~ In (x, y, v) l) ->
  getpixel (foldl (fun im '(x, y, v) => set_px im x y v) img l) (x, y) =
  getpixel img (x, y).
Proof.
  induction l as [|[[a b] v] l IH]; intros img Hout; [reflexivity|].
  cbn [foldl]. rewrite IH by (intros v' Hin; apply (Hout v'); right; exact Hin).
  rewrite getpixel_set_px.
  destruct (Z.eqb_spec a x) as [->|], (Z.eqb_spec b y) as [->|];
    cbn [andb]; try reflexivity.
  exfalso. apply (Hout v). left. reflexivity.
Qed.

Lemma raster_outside c b img x y :
  raster_within c b -> in_box b x y = false ->
  getpixel (foldl (fun im '(x, y, v) => set_px im x y v) img (raster c img)) (x, y)
  = getpixel img (x, y).
Proof.
  intros Hwithin Hout. apply getpixel_foldl_writes.
  intros v Hin. apply Hwithin in Hin. congruence.
Qed.

Lemma Image_new_is_blank size c img :
  Image_new size c = Ok img -> img = blank size c.
Proof.
  destruct size as [w h]. intros (_ & _ & ->)%Image_new_inv. reflexivity.
Qed.

Lemma getpixel_blank_inside w h c x y :
  0 <= x < w -> 0 <= y < h -> getpixel (blank (w, h) c) (x, y) = Some (clip8 c).
Proof. intros Hx Hy. unfold blank. cbn [fst snd]. apply getpixel_blank; assumption. Qed.

(** X16. The text anchor is computed from the measured width and height
    only: on the canvas that [Image.new] returned, and with a text
    measurement that moves with the anchor, the right and bottom margins of
    the drawn text equal the left and top margins less twice the origin
    offset of its bounding box, up to one pixel; the text is centred only
    when that offset is zero. *)
Theorem text_centred_up_to_origin s width height canvas :
  Image_new (width, height) 255 = Ok canvas ->
  (forall xy font, textbbox xy s font = shift_box xy (textbbox (0, 0) s font)) ->
  exists font x y,
    create_text_image s (width, height) =
    Ok (draw canvas (text (x, y) s (Some 0) font)) /\
    let '(b0, b1, _, _) := textbbox (0, 0) s font in
    let '(l, t, r, b) := textbbox (x, y) s font in
    0 <= (width - r) - (l - 2 * b0) <= 1 /\
    0 <= (height - b) - (t - 2 * b1) <= 1.
Proof.
  intros Hnew Hshift. unfold create_text_image.
  rewrite Hnew. cbn [mbind result_bind].
  set (font := match truetype _ _ with Ok f => f | Raise _ => load_default end).
  exists font.
  destruct (textbbox (0, 0) s font) as [[[b0 b1] b2] b3] eqn:Ebox.
  cbn [fst snd].
  exists ((width - (b2 - b0)) / 2), ((height - (b3 - b1)) / 2).
  split; [reflexivity|].
  rewrite (Hshift ((width - (b2 - b0)) / 2, (height - (b3 - b1)) / 2) font), Ebox.
  cbn [fst snd shift_box].
  pose proof (Z.div_mod (width - (b2 - b0)) 2 ltac:(lia)).
  pose proof (Z.mod_pos_bound (width - (b2 - b0)) 2 ltac:(lia)).
  pose proof (Z.div_mod (height - (b3 - b1)) 2 ltac:(lia)).
  pose proof (Z.mod_pos_bound (height - (b3 - b1)) 2 ltac:(lia)).
  lia.
Qed.

(** X17. The logo does not scale with the canvas: outside the bounding box
    [(55, 10, 80, 40)] of the bowl of the P, a canvas pixel is black exactly
    when it lies in one of five rectangles at fixed coordinates, for every
    size. *)
Theorem logo_fixed_geometry size img x y :
  raster_within (ellipse logo_bowl None (Some 0) 3) logo_bowl ->
  create_test_logo size = Ok img ->
  0 <= x < size -> 0 <= y < size ->
  in_box logo_bowl x y = false ->
  getpixel img (x, y) = Some (if logo_ink x y then 0 else 255).
Proof.
  intros Hbowl Hrun Hx Hy Hout. unfold create_test_logo in Hrun. inv_run Hrun.
  apply Image_new_is_blank in E. subst. apply Ok_inj in Hrun. subst img.
  cbv zeta. cbn [draw].
  change (10 + 35 + 10, 10, 10 + 35 + 35, 10 + 30) with logo_bowl.
  rewrite (raster_outside _ logo_bowl) by assumption.
  rewrite !getpixel_fill_box, getpixel_blank_inside by assumption.
  unfold logo_ink. cbv zeta. cbn [in_box].
  repeat match goal with
         | |- context [if ?c then _ else _] =>
             lazymatch c with
             | _ || _ => fail
             | _ => destruct c
             end
         end; reflexivity.
Qed.

Lemma getpixel_fill_in_box img b ink x y :
  getpixel (fill_box img b ink) (x, y) =
  if in_box b x y then (fun _ => clip8 ink) <$> getpixel img (x, y)
  else getpixel img (x, y).
Proof. destruct b as [[[x0 y0] x1] y1]. apply getpixel_fill_box. Qed.

(** X18. Away from the box around the roof, the photo-like scene is fully
    layered: windows (150) over the house (50) over the ground (100, from
    row [size // 2] down) over the sky (200); the initial tone 128 never
    shows there. *)
Theorem photo_layers size img x y :
  raster_within (polygon (roof_points size) (Some 30) None 1) (roof_box size) ->
  create_photo_like size = Ok img ->
  0 <= x < size -> 0 <= y < size ->
  in_box (roof_box size) x y = false ->
  getpixel img (x, y) = Some (photo_tone size x y).
Proof.
  intros Hroof Hrun Hx Hy Hout. unfold create_photo_like in Hrun. inv_run Hrun.
  apply Image_new_is_blank in E. subst. apply Ok_inj in Hrun. subst img.
  cbv zeta. cbn [draw].
  rewrite !getpixel_fill_in_box.
  match goal with
  | |- context [foldl _ ?base (raster ?c ?base)] =>
      rewrite (raster_outside c (roof_box size) base)
        by first [exact Hroof|exact Hout]
  end.
  rewrite !getpixel_fill_in_box, getpixel_blank_inside by assumption.
  unfold photo_tone, window_boxes, house_box. cbv zeta. cbn [fst snd].
  assert (0 <= size / 2) by (apply Z.div_pos; lia).
  assert (in_box (0, 0, size, size / 2) x y = (y <=? size / 2)) as ->.
  { cbn [in_box]. destruct (Z.leb_spec 0 x), (Z.leb_spec x size),
      (Z.leb_spec 0 y); try lia; reflexivity. }
  assert (in_box (0, size / 2, size, size) x y = (size / 2 <=? y)) as ->.
  { cbn [in_box]. destruct (Z.leb_spec 0 x), (Z.leb_spec x size),
      (Z.leb_spec y size); try lia; cbn [andb]; rewrite ?andb_true_r;
      reflexivity. }
  repeat match goal with
         | |- context [in_box ?b x y] => destruct (in_box b x y)
         end;
    destruct (Z.leb_spec (size / 2) y), (Z.leb_spec y (size / 2));
    try reflexivity; lia.
Qed.

(** X19. The circle pattern never paints outside the bounding boxes of its
    circles: a canvas pixel outside all of them keeps the white
    background. *)
Theorem circles_exterior size img x y :
  (forall box fill outline width,
     raster_within (ellipse box fill outline width) box) ->
  create_circle_pattern size = Ok img ->
  0 <= x < size -> 0 <= y < size ->
  Forall (fun r => in_box (size / 2 - r, size / 2 - r, size / 2 + r, size / 2 + r)
                     x y = false) (circle_radii size) ->
  getpixel img (x, y) = Some 255.
Proof.
  intros Hell Hrun Hx Hy Hout.
  pose proof (create_circle_pattern_inv _ _ Hrun) as Hsize.
  rewrite create_circle_pattern_fold in Hrun by assumption.
  apply Ok_inj in Hrun. subst img. fold (circle_radii size).
  assert (getpixel (blank (size, size) 255) (x, y) = Some 255) as Hbase
    by (apply getpixel_blank_inside; assumption).
  revert Hbase. generalize (blank (size, size) 255).
  induction Hout as [|r radii Hr Hout IH]; intros base Hbase; [exact Hbase|].
  cbn [map foldl]. apply IH. unfold circle. cbn [draw].
  rewrite (raster_outside _ _ base _ _ (Hell _ _ _ _) Hr). exact Hbase.
Qed.


(** ** The cells of the noise grid *)

Lemma spin_S k g : spin (S k) g = (random (spin k g)).2.
Proof.
  replace (S k) with (k + 1)%nat by lia. rewrite spin_add. reflexivity.
Qed.

Lemma lookup_list_prod {A B} (l1 : list A) (l2 : list B) j i a b :
  l1 !! j = Some a -> l2 !! i = Some b ->
  list_prod l1 l2 !! (j * length l2 + i)%nat = Some (a, b).
Proof.
  revert j. induction l1 as [|a0 l1 IH]; intros [|j] Ha Hb; try discriminate.
  - cbn [list_prod Nat.mul Nat.add]. cbn in Ha. injection Ha as ->.
    pose proof (lookup_lt_Some _ _ _ Hb).
    rewrite lookup_app_l by (rewrite length_map; assumption).
    rewrite lookup_map, Hb. reflexivity.
  - cbn [list_prod]. cbn in Ha.
    rewrite lookup_app_r by (rewrite length_map; cbn; lia).
    rewrite length_map.
    replace (S j * length l2 + i - length l2)%nat with (j * length l2 + i)%nat
      by (cbn; lia).
    apply IH; assumption.
Qed.

Lemma lookup_list_prod_inv {A B} (l1 : list A) (l2 : list B) pos a b :
  list_prod l1 l2 !! pos = Some (a, b) ->
  exists j i, pos = (j * length l2 + i)%nat /\ (i < length l2)%nat /\
              l1 !! j = Some a /\ l2 !! i = Some b.
Proof.
  revert pos. induction l1 as [|a0 l1 IH]; intros pos Hpos; [discriminate|].
  cbn [list_prod] in Hpos. apply lookup_app_Some in Hpos as [Hl|[Hge Hr]].
  - rewrite lookup_map in Hl.
    destruct (l2 !! pos) as [b'|] eqn:Eb; [|discriminate].
    cbn in Hl. injection Hl as <- <-.
    exists 0%nat, pos. repeat split; [apply (lookup_lt_Some _ _ _ Eb)|assumption].
  - rewrite length_map in Hge, Hr.
    destruct (IH _ Hr) as (j & i & Epos & Hi & Ha & Hb).
    exists (S j), i. repeat split; try assumption. cbn. lia.
Qed.

Lemma lookup_corners size sq (a : nat) :
  (a < length (corners size sq))%nat ->
  corners size sq !! a = Some (Z.of_nat a * sq).
Proof.
  unfold corners. rewrite length_map, length_seq. intros Ha.
  rewrite lookup_map, lookup_seq_lt by assumption. reflexivity.
Qed.

Lemma length_corners_4 size : length (corners size 4) = qr_cells size.
Proof. unfold corners, qr_cells. rewrite length_map. apply length_seq. Qed.

(** The cell loops, cell by cell, with the position of each cell in the
    stream of random numbers. *)
Lemma qr_loop (l : list (Z * Z)) : forall (k : nat) im,
  for_ l (fun (yx : Z * Z) '(img, g) =>
            let '(u, g) := random g in
            if Py.gt u Py.half then
              Ok (draw img (rectangle (yx.2, yx.1, yx.2 + 4 - 1, yx.1 + 4 - 1)
                              (Some 0) None 1), g)
            else Ok (img, g))
    (im, spin k (seed 42)) =
  Ok (foldl (fun im (c : Z * Z * nat) =>
               if qr_bit c.2
               then fill_box im (c.1.2, c.1.1, c.1.2 + 4 - 1, c.1.1 + 4 - 1) 0
               else im)
        im (zip l (seq k (length l))),
      spin (k + length l) (seed 42)).
Proof.
  induction l as [|a l IH]; intros k im.
  - cbn. rewrite Nat.add_0_r. reflexivity.
  - cbn [for_ length seq zip zip_with foldl fst snd].
    assert (qr_bit k = Py.gt (random (spin k (seed 42))).1 Py.half) as ->
      by reflexivity.
    pose proof (spin_S k (seed 42)) as Hnext.
    destruct (random (spin k (seed 42))) as [u g1]. cbn [fst snd] in *.
    subst g1. rewrite <- Nat.add_succ_comm.
    destruct (Py.gt u Py.half); cbn [mbind result_bind]; apply IH.
Qed.

Lemma qr_cover size x y :
  0 <= x < size -> 0 <= y < size ->
  existsb (fun c : Z * Z * nat =>
             qr_bit c.2
             && in_box (c.1.2, c.1.1, c.1.2 + 4 - 1, c.1.1 + 4 - 1) x y)
    (zip (list_prod (corners size 4) (corners size 4))
       (seq 0 (length (list_prod (corners size 4) (corners size 4))))) =
  qr_bit (Z.to_nat (y / 4) * qr_cells size + Z.to_nat (x / 4)).
Proof.
  intros Hx Hy.
  pose proof (Z.div_mod x 4 ltac:(lia)) as Ex.
  pose proof (Z.mod_pos_bound x 4 ltac:(lia)) as Hrx.
  pose proof (Z.div_mod y 4 ltac:(lia)) as Ey.
  pose proof (Z.mod_pos_bound y 4 ltac:(lia)) as Hry.
  assert (0 <= x / 4) as Hqx by (apply Z.div_pos; lia).
  assert (0 <= y / 4) as Hqy by (apply Z.div_pos; lia).
  assert (forall v, 0 <= v < size -> (Z.to_nat (v / 4) < qr_cells size)%nat) as Hcell.
  { intros v Hv. unfold qr_cells.
    assert (v / 4 < (size - 0 + 4 - 1) / 4); [|apply Z2Nat.inj_lt; try lia;
                                               apply Z.div_pos; lia].
    pose proof (Z.div_mod v 4 ltac:(lia)).
    pose proof (Z.mod_pos_bound v 4 ltac:(lia)).
    assert (v / 4 + 1 <= (size - 0 + 4 - 1) / 4)
      by (apply Z.div_le_lower_bound; lia).
    lia. }
  apply eq_iff_eq_true. rewrite existsb_exists. split.
  - intros ([[y0 x0] idx] & Hin & Hc). cbn [fst snd] in Hc.
    apply andb_true_iff in Hc as [Hbit Hbox]. cbn [in_box] in Hbox.
    repeat (apply andb_true_iff in Hbox as [Hbox ?]).
    apply list_elem_of_In, list_elem_of_lookup in Hin as [pos Hpos].
    apply lookup_zip_with_Some in Hpos as (c & idx' & [= <- <-] & Hc & Hidx).
    apply lookup_seq in Hidx as [-> _]. cbn [Nat.add] in Hbit.
    apply lookup_list_prod_inv in Hc as (j & i & -> & Hi & Hj & Hi').
    rewrite length_corners_4 in Hi, Hbit.
    pose proof (lookup_lt_Some _ _ _ Hj) as Hjlt.
    rewrite lookup_corners in Hj, Hi'
      by first [assumption|rewrite length_corners_4; assumption].
    injection Hj as <-. injection Hi' as <-.
    assert (x / 4 = Z.of_nat i) as ->
      by (symmetry; apply (Z.div_unique x 4 _ (x - Z.of_nat i * 4)); lia).
    assert (y / 4 = Z.of_nat j) as ->
      by (symmetry; apply (Z.div_unique y 4 _ (y - Z.of_nat j * 4)); lia).
    rewrite !Nat2Z.id. exact Hbit.
  - intros Hbit.
    exists (y / 4 * 4, x / 4 * 4,
            (Z.to_nat (y / 4) * qr_cells size + Z.to_nat (x / 4))%nat).
    split.
    + apply list_elem_of_In, list_elem_of_lookup.
      exists (Z.to_nat (y / 4) * qr_cells size + Z.to_nat (x / 4))%nat.
      apply lookup_zip_with_Some. eexists _, _. split; [reflexivity|].
      assert (list_prod (corners size 4) (corners size 4)
              !! (Z.to_nat (y / 4) * qr_cells size + Z.to_nat (x / 4))%nat =
              Some (y / 4 * 4, x / 4 * 4)) as Hcell'.
      { rewrite <- length_corners_4. apply lookup_list_prod.
        - rewrite lookup_corners by (rewrite length_corners_4; apply Hcell, Hy).
          rewrite Z2Nat.id by assumption. reflexivity.
        - rewrite lookup_corners by (rewrite length_corners_4; apply Hcell, Hx).
          rewrite Z2Nat.id by assumption. reflexivity. }
      split; [exact Hcell'|].
      apply lookup_seq. split; [reflexivity|].
      apply (lookup_lt_Some _ _ _ Hcell').
    + cbn [fst snd in_box]. rewrite Hbit. cbn [andb].
      repeat (apply andb_true_iff; split); apply Z.leb_le; lia.
Qed.

(** X20. Outside the three corner markers, the noise grid follows the
    stream of the reseeded generator: the cell of a pixel, counted row by
    row, is black exactly when the number drawn for it exceeds 0.5. *)
Theorem qr_cells_follow_stream size g img g' x y :
  (forall box, raster_within (rectangle box None (Some 0) 2) box) ->
  create_qr_code_like size g = Ok (img, g') ->
  0 <= x < size -> 0 <= y < size ->
  Forall (fun b => in_box b x y = false) (marker_boxes size) ->
  getpixel img (x, y) =
  Some (if qr_bit (Z.to_nat (y / 4) * qr_cells size + Z.to_nat (x / 4))
        then 0 else 255).
Proof.
  intros Hmark Hrun Hx Hy Hout. unfold create_qr_code_like in Hrun.
  inv_run Hrun. inv_run Hrun. inv_run Hrun.
  match goal with p : (Image * rng)%type |- _ => destruct p as [im gm] end.
  apply Ok_inj, pair_equal_spec in Hrun. destruct Hrun as [<- _].
  apply Image_new_is_blank in E. subst.
  rewrite range3_pos in E0 by lia. apply Ok_inj in E0.
  fold (corners size 4) in E0. subst.
  set (body := fun (yx : Z * Z) '(img, g) =>
                 let '(u, g) := random g in
                 if Py.gt u Py.half then
                   Ok (draw img (rectangle (yx.2, yx.1, yx.2 + 4 - 1, yx.1 + 4 - 1)
                                   (Some 0) None 1), g)
                 else Ok (img, g)).
  assert (for_ (list_prod (corners size 4) (corners size 4)) body
            (blank (size, size) 255, seed 42) = Ok (im, gm)) as Hcells.
  { rewrite <- E1.
    rewrite (for_nested (corners size 4) (corners size 4)
               (fun y x st => body (y, x) st)).
    apply for_ext. intros [y0 x0] st _. reflexivity. }
  pose proof (qr_loop (list_prod (corners size 4) (corners size 4)) 0
                (blank (size, size) 255)) as Hloop.
  cbn [spin] in Hloop. fold body in Hloop. rewrite Hcells in Hloop.
  apply Ok_inj, pair_equal_spec in Hloop. destruct Hloop as [-> _].
  unfold marker_boxes in Hout. cbv zeta in Hout. cbn [map] in Hout.
  inversion Hout as [|b1 l1 Hb1 Hout1]; subst.
  inversion Hout1 as [|b2 l2 Hb2 Hout2]; subst.
  inversion Hout2 as [|b3 l3 Hb3 _]; subst.
  cbv zeta. cbn [foldl draw].
  rewrite (raster_outside _ _ _ _ _ (Hmark _) Hb3).
  rewrite (raster_outside _ _ _ _ _ (Hmark _) Hb2).
  rewrite (raster_outside _ _ _ _ _ (Hmark _) Hb1).
  rewrite (getpixel_foldl_fill (fun c : Z * Z * nat => qr_bit c.2)
             (fun c : Z * Z * nat =>
                (c.1.2, c.1.1, c.1.2 + 4 - 1, c.1.1 + 4 - 1))).
  rewrite qr_cover, getpixel_blank_inside by assumption.
  destruct (qr_bit _); reflexivity.
Qed.

End FootprintFacts.

(** * The inking environment *)

Lemma In_span a b v : In v (span a b) -> a <= v <= b.
Proof. unfold span. rewrite in_map_iff. intros (i & <- & Hi%in_seq). lia. Qed.

(** The samples of a box lie in the box. *)
Lemma box_samples_within b c x y v :
  In (x, y, v) (box_samples b c) -> in_box b x y = true.
Proof.
  destruct b as [[[x0 y0] x1] y1]. unfold box_samples, in_box.
  rewrite in_map_iff. intros ([y' x'] & [= <- <- _] & Hin).
  apply in_prod_iff in Hin as [Hy%In_span Hx%In_span]. cbn [fst snd].
  repeat (apply andb_true_iff; split); apply Z.leb_le; lia.
Qed.

(** In the inking environment an ellipse stays inside its bounding box. *)
Lemma inked_ellipse_within box fill outline width :
  @raster_within inked_env (ellipse box fill outline width) box.
Proof.
  intros img x y v. cbn [raster inked_env].
  destruct outline as [o|], fill as [f|];
    first [apply box_samples_within | intros []].
Qed.

(** The text box of the inking environment moves with the anchor. *)
Lemma inked_textbbox_shift s xy font :
  @textbbox inked_env xy s font =
  shift_box xy (@textbbox inked_env (0, 0) s font).
Proof.
  destruct xy as [a b]. cbn [textbbox inked_env shift_box fst snd].
  repeat (apply pair_equal_spec; split); lia.
Qed.

(** * Worked instances of the footprint properties *)

Lemma text_centred_up_to_origin_witness :
  @textbbox inked_env (0, 0) "TEST" 24 = (1, 3, 25, 11) /\
  exists font x y,
    @create_text_image inked_env "TEST" (80, 30) =
    Ok (@draw inked_env (blank (80, 30) 255) (text (x, y) "TEST" (Some 0) font)) /\
    let '(b0, b1, _, _) := @textbbox inked_env (0, 0) "TEST" font in
    let '(l, t, r, b) := @textbbox inked_env (x, y) "TEST" font in
    0 <= (80 - r) - (l - 2 * b0) <= 1 /\
    0 <= (30 - b) - (t - 2 * b1) <= 1.
Proof.
  split; [reflexivity|].
  apply (@text_centred_up_to_origin inked_env "TEST" 80 30 (blank (80, 30) 255)).
  - reflexivity.
  - intros xy font. apply inked_textbbox_shift.
Defined.

Lemma logo_fixed_geometry_witness :
  exists img,
    @create_test_logo plain_env 40 = Ok img /\
    getpixel img (12, 15) = Some 0 /\ getpixel img (39, 5) = Some 255.
Proof.
  eexists.
  assert (@create_test_logo plain_env 40 = Ok _) as Hrun
    by (vm_compute; reflexivity).
  split; [exact Hrun|].
  split.
  - apply (@logo_fixed_geometry plain_env 40 _ 12 15);
      [intros img x y v []|exact Hrun|lia|lia|reflexivity].
  - apply (@logo_fixed_geometry plain_env 40 _ 39 5);
      [intros img x y v []|exact Hrun|lia|lia|reflexivity].
Defined.

Lemma photo_layers_witness :
  exists img,
    @create_photo_like plain_env 150 = Ok img /\
    getpixel img (5, 5) = Some 200 /\ getpixel img (5, 75) = Some 100 /\
    getpixel img (55, 80) = Some 50.
Proof.
  eexists.
  assert (@create_photo_like plain_env 150 = Ok _) as Hrun
    by (vm_compute; reflexivity).
  split; [exact Hrun|].
  split; [|split].
  - apply (@photo_layers plain_env 150 _ 5 5);
      [intros img x y v []|exact Hrun|lia|lia|reflexivity].
  - apply (@photo_layers plain_env 150 _ 5 75);
      [intros img x y v []|exact Hrun|lia|lia|reflexivity].
  - apply (@photo_layers plain_env 150 _ 55 80);
      [intros img x y v []|exact Hrun|lia|lia|reflexivity].
Defined.

Lemma circles_exterior_witness :
  exists img,
    @create_circle_pattern inked_env 40 = Ok img /\
    getpixel img (20, 20) = Some 0 /\ getpixel img (5, 35) = Some 0 /\
    getpixel img (2, 37) = Some 255 /\ getpixel img (36, 20) = Some 255.
Proof.
  eexists.
  assert (@create_circle_pattern inked_env 40 = Ok _) as Hrun
    by (vm_compute; reflexivity).
  split; [exact Hrun|].
  split; [reflexivity|]. split; [reflexivity|]. split.
  - apply (@circles_exterior inked_env 40 _ 2 37);
      [apply inked_ellipse_within|exact Hrun|lia|lia|].
    repeat constructor.
  - apply (@circles_exterior inked_env 40 _ 36 20);
      [apply inked_ellipse_within|exact Hrun|lia|lia|].
    repeat constructor.
Defined.

Lemma qr_cells_follow_stream_witness :
  exists img g',
    @create_qr_code_like plain_env 16 0 = Ok (img, g') /\
    getpixel img (13, 14) = Some (if @qr_bit plain_env 15 then 0 else 255).
Proof.
  eexists. eexists.
  assert (@create_qr_code_like plain_env 16 0 = Ok (_, _)) as Hrun
    by (vm_compute; reflexivity).
  split; [exact Hrun|].
  eapply (@qr_cells_follow_stream plain_env 16 0 _ _ 13 14);
    [intros box img x y v []|exact Hrun|lia|lia|].
  repeat constructor.
Defined.
